(** * Arabic Stream Hub addon: stream and configure handlers

    A shallow embedding of [src/addon.js] (the stream handler, lines 73-186,
    and the configure handler, lines 204-271) together with the properties the
    specification states about them; then the catalog handler (37-70), the
    genre table (275-283) and the manifest's catalogs, with further
    properties read off the source.

    Conventions of the embedding.
    - A JavaScript string is a [string]: the sequence of its UTF-8 bytes.  The
      regular expression, [split('/')] and [encodeURIComponent] act on ASCII
      bytes only, so they are exact on that representation; [toLowerCase] is
      embedded on the ASCII letters (the five suffixes of the allow-list are
      ASCII).
    - A JavaScript object received from a remote service is a record whose
      fields are options: [None] is an absent ([undefined]) property.
    - A promise that rejects, and a [throw], are the [Throw] result; [await]
      is the bind of the monad [M].  Remote calls are taken to settle.
    - [console.warn] and [console.log] calls are not part of the model. *)

From Stdlib Require Import String Ascii List ZArith Bool Arith Lia Sorted.
From Stdlib Require Import DecimalString.
Import ListNotations.
Open Scope string_scope.

(** ** Strings *)

Module Str.

Definition code (c : ascii) : nat := nat_of_ascii c.

Definition between (lo hi : nat) (c : ascii) : bool :=
  (lo <=? code c)%nat && (code c <=? hi)%nat.

Definition isDigit (c : ascii) : bool := between 48 57 c.
Definition isUpper (c : ascii) : bool := between 65 90 c.
Definition isLower (c : ascii) : bool := between 97 122 c.

(** The character class [[a-zA-Z0-9]]. *)
Definition isAlnum (c : ascii) : bool := isLower c || isUpper c || isDigit c.

(** The character class [[0-9a-fA-F]]. *)
Definition isHex (c : ascii) : bool :=
  isDigit c || between 97 102 c || between 65 70 c.

Definition lowerChar (c : ascii) : ascii :=
  if isUpper c then ascii_of_nat (code c + 32) else c.

(** [String.prototype.toLowerCase]. *)
Fixpoint toLowerCase (s : string) : string :=
  match s with
  | EmptyString => EmptyString
  | String c r => String (lowerChar c) (toLowerCase r)
  end.

(** [String.prototype.endsWith]: some suffix of [s] is [suffix]. *)
Fixpoint endsWith (s suffix : string) : bool :=
  String.eqb s suffix
  || match s with
     | EmptyString => false
     | String _ r => endsWith r suffix
     end.

(** [String.prototype.startsWith]. *)
Fixpoint startsWith (s p : string) {struct p} : bool :=
  match p, s with
  | EmptyString, _ => true
  | String a p', String b s' => Ascii.eqb a b && startsWith s' p'
  | String _ _, EmptyString => false
  end.

Fixpoint all (p : ascii -> bool) (s : string) : bool :=
  match s with
  | EmptyString => true
  | String c r => p c && all p r
  end.

(** [s.split(sep)] for a one-character separator: never the empty array. *)
Fixpoint split (sep : ascii) (s : string) : list string :=
  match s with
  | EmptyString => [EmptyString]
  | String c r =>
      if Ascii.eqb c sep then EmptyString :: split sep r
      else match split sep r with
           | h :: t => String c h :: t
           | [] => [String c EmptyString]
           end
  end.

(** [Array.prototype.pop] on the result of a split: its last element. *)
Definition pop (l : list string) : string := last l EmptyString.

(** [Array.prototype.join] as used by the string conversion of an array. *)
Fixpoint join (sep : string) (l : list string) : string :=
  match l with
  | [] => EmptyString
  | [x] => x
  | x :: r => x ++ sep ++ join sep r
  end.

Definition hexDigit (n : nat) : ascii :=
  if (n <? 10)%nat then ascii_of_nat (48 + n) else ascii_of_nat (55 + n).

(** Characters [encodeURIComponent] leaves as they are. *)
Definition unreserved (c : ascii) : bool :=
  isAlnum c || existsb (Ascii.eqb c) (list_ascii_of_string "-_.!~*'()").

Definition percent (c : ascii) : string :=
  String "%" (String (hexDigit (code c / 16))
                     (String (hexDigit (code c mod 16)) EmptyString)).

(** [encodeURIComponent] on the UTF-8 bytes of its argument. *)
Fixpoint encodeURIComponent (s : string) : string :=
  match s with
  | EmptyString => EmptyString
  | String c r =>
      (if unreserved c then String c EmptyString else percent c)
      ++ encodeURIComponent r
  end.

End Str.

(** ** Values exchanged with the services *)

(** An entry of [torrentInfoResponse.data.files]. *)
Record FileEntry : Type := mkFile { path : string; bytes : Z }.

(** The [data] object of a response: the properties the handlers read. *)
Record Data : Type := mkData {
  d_id : option string;
  d_files : option (list FileEntry);
  d_links : option (list string);
  d_stream_link : option string;
  d_title : option string;
  d_name : option string;
  d_release_date : option string;
  d_first_air_date : option string
}.

Definition emptyData : Data :=
  mkData None None None None None None None None.

(** What [axios.get] / [axios.post] resolve to. *)
Record Response : Type := mkResponse { data : option Data }.

(** A thrown value: the rejection of a remote call, or the [TypeError] of a
    property read or method call on [undefined] (the property is recorded). *)
Inductive JsError : Type :=
| Error (message : string)
| TypeError (property : string).

(** The value held by [GLOBAL_DEBRID_API_KEY]: the empty string at start, then
    whatever [querystring.parse] gave for the field, a string or (for a
    repeated field) an array of strings. *)
Inductive KeyValue : Type :=
| KStr (s : string)
| KArr (l : list string).

(** An element of [streams].  The object literals of the source set either
    [url] and [title], or [infoHash], [sources] and [title]. *)
Record Stream : Type := mkStream {
  url : option string;
  infoHash : option string;
  sources : option (list string);
  title : string
}.

(** ** Truthiness and string conversion *)

Definition truthyStr (s : string) : bool := negb (String.eqb s EmptyString).

Definition truthyOpt (o : option string) : bool :=
  match o with
  | Some s => truthyStr s
  | None => false
  end.

Definition truthyKey (k : KeyValue) : bool :=
  match k with
  | KStr s => truthyStr s
  | KArr _ => true
  end.

(** [a || b] on possibly absent strings. *)
Definition orElse (a b : option string) : option string :=
  if truthyOpt a then a else b.

(** Interpolation [${v}] of a possibly absent string. *)
Definition showOpt (o : option string) : string :=
  match o with
  | Some s => s
  | None => "undefined"
  end.

(** Interpolation [${debridApiKey}]. *)
Definition showKey (k : KeyValue) : string :=
  match k with
  | KStr s => s
  | KArr l => Str.join "," l
  end.

(** ** File selection (addon.js 122-129) *)

Definition videoExtensions : list string :=
  [".mkv"; ".mp4"; ".avi"; ".mov"; ".webm"].

(** [videoExtensions.some(ext => p.toLowerCase().endsWith(ext))]. *)
Definition isVideo (p : string) : bool :=
  existsb (fun ext => Str.endsWith (Str.toLowerCase p) ext) videoExtensions.

(** The callback of [files.reduce]. *)
Definition reducer (prev : option FileEntry) (current : FileEntry)
  : option FileEntry :=
  if isVideo (path current) then
    match prev with
    | Some p => if (bytes p >? bytes current)%Z then Some p else Some current
    | None => Some current
    end
  else prev.

(** [const mainFile = files.reduce(..., null)]. *)
Definition mainFile (files : list FileEntry) : option FileEntry :=
  fold_left reducer files None.

(** The selection as the specification words it: a qualifying entry replaces
    the current best only when its size is strictly greater. *)
Definition spec_reducer (best : option FileEntry) (current : FileEntry)
  : option FileEntry :=
  if isVideo (path current) then
    match best with
    | Some b => if (bytes current >? bytes b)%Z then Some current else Some b
    | None => Some current
    end
  else best.

Definition spec_mainFile (files : list FileEntry) : option FileEntry :=
  fold_left spec_reducer files None.

(** ** The hash pattern (addon.js 151, 162, 172) *)

(** The pattern [btih:([a-zA-Z0-9]{40})] tried at the start of [s]; the
    result is the captured group. *)
Definition matchHere (cls : ascii -> bool) (s : string) : option string :=
  if Str.startsWith s "btih:" then
    let h := substring 5 40 s in
    if (String.length h =? 40)%nat && Str.all cls h then Some h else None
  else None.

(** The leftmost match of the pattern in [s]. *)
Fixpoint search (cls : ascii -> bool) (s : string) : option string :=
  match matchHere cls s with
  | Some h => Some h
  | None =>
      match s with
      | EmptyString => None
      | String _ r => search cls r
      end
  end.

(** [magnet.match(/btih:([a-zA-Z0-9]{40})/)], reduced to its group 1. *)
Definition infoHashMatch (magnet : string) : option string :=
  search Str.isAlnum magnet.

(** The pattern as the specification words it: forty hexadecimal digits. *)
Definition spec_hexHashMatch (magnet : string) : option string :=
  search Str.isHex magnet.

(** ** Effects: the process store, remote calls, exceptions *)

Inductive Result (A : Type) : Type :=
| Ok (a : A)
| Throw (e : JsError).

Arguments Ok {A} a.
Arguments Throw {A} e.

(** The module-level [let GLOBAL_DEBRID_API_KEY] and the world the remote
    services live in. *)
Record Store (World : Type) : Type := mkStore {
  GLOBAL_DEBRID_API_KEY : KeyValue;
  world : World
}.

Arguments mkStore {World} _ _.
Arguments GLOBAL_DEBRID_API_KEY {World} _.
Arguments world {World} _.

Definition Headers : Type := list (string * string).

(** What the handlers take from outside the file: the [axios] client, the
    [querystring] parser (the parsed object is given by the lookup of its
    properties) and [process.env.TMDB_API_KEY]. *)
Class Runtime (World : Type) : Type := {
  TMDB_API_KEY : option string;
  axios_get : string -> Headers -> World -> Result Response * World;
  axios_post : string -> string -> Headers -> World -> Result Response * World;
  querystring_parse : string -> string -> option KeyValue
}.

Definition M (World A : Type) : Type :=
  Store World -> Result A * Store World.

Definition ret {World A} (a : A) : M World A := fun st => (Ok a, st).

Definition throw {World A} (e : JsError) : M World A := fun st => (Throw e, st).

Definition bind {World A B} (m : M World A) (k : A -> M World B) : M World B :=
  fun st =>
    match m st with
    | (Ok a, st') => k a st'
    | (Throw e, st') => (Throw e, st')
    end.

(** [try { m } catch (e) { h e }]. *)
Definition try_catch {World A} (m : M World A) (h : JsError -> M World A)
  : M World A :=
  fun st =>
    match m st with
    | (Ok a, st') => (Ok a, st')
    | (Throw e, st') => h e st'
    end.

Definition readKey {World} : M World KeyValue :=
  fun st => (Ok (GLOBAL_DEBRID_API_KEY st), st).

Definition writeKey {World} (k : KeyValue) : M World unit :=
  fun st => (Ok tt, mkStore k (world st)).

(** [await] of a remote call. *)
Definition await {World A} (call : World -> Result A * World) : M World A :=
  fun st =>
    let (r, w) := call (world st) in
    (r, mkStore (GLOBAL_DEBRID_API_KEY st) w).

Notation "x <- m ;; k" := (bind m (fun x => k))
  (at level 61, m at next level, right associativity).

(** [response.data.prop]: reading [prop] of an absent [data] throws. *)
Definition dataOf {World} (r : Response) (prop : string) : M World Data :=
  match data r with
  | Some d => ret d
  | None => throw (TypeError prop)
  end.

(** ** Stream handler (addon.js 73-186) *)

Definition debridServiceEndpoint : string :=
  "https://api.real-debrid.com/rest/1.0".

(** [const potentialMagnetLinks = []]: nothing is ever pushed to it. *)
Definition potentialMagnetLinks : list string := [].

Definition p2pStream (hash magnet : string) (title : option string) : Stream :=
  mkStream None (Some hash) (Some [magnet])
           ("[P2P] " ++ showOpt title ++ " (Torrent)").

Definition directStream (link : string) (file : FileEntry) : Stream :=
  mkStream (Some link) None None
           ("[RD+] " ++ Str.pop (Str.split "/" (path file))).

(** The block the source writes three times (151-158, 162-169, 172-178):
    match the magnet, push a peer-to-peer stream when group 1 is there. *)
Definition pushP2P (title : option string) (magnet : string)
  (streams : list Stream) : list Stream :=
  match infoHashMatch magnet with
  | Some h => if truthyStr h then (streams ++ [p2pStream h magnet title])%list
              else streams
  | None => streams
  end.

Definition bearer (debridApiKey : KeyValue) : string * string :=
  ("Authorization", "Bearer " ++ showKey debridApiKey).

Definition formType : string * string :=
  ("Content-Type", "application/x-www-form-urlencoded").

(** ** Configure handler (addon.js 204-271) *)

(** [args.body]: a string or a [Buffer]; [toString] gives its text. *)
Inductive Body : Type :=
| BodyString (text : string)
| BodyBuffer (text : string).

Record Args : Type := mkArgs { method : string; body : option Body }.

(** The three [html] templates, by their heading: "Configuration Saved!",
    "Configuration Error" and "Configure Arabic Stream Hub Addon". *)
Inductive Page : Type :=
| ConfigurationSaved
| ConfigurationError
| ConfigureForm.

Definition truthyBody (b : option Body) : bool :=
  match b with
  | Some (BodyString t) => truthyStr t
  | Some (BodyBuffer _) => true
  | None => false
  end.

Definition bodyToString (b : option Body) : string :=
  match b with
  | Some (BodyString t) => t
  | Some (BodyBuffer t) => t
  | None => EmptyString
  end.

Section Handlers.

Context {World : Type} {RT : Runtime World}.

(** The callback given to [builder.defineConfigureHandler]; the value it
    resolves to is the [html] of the returned object. *)
Definition defineConfigureHandler (args : Args) : M World Page :=
  if String.eqb (method args) "POST" && truthyBody (body args) then
    let formData := querystring_parse (bodyToString (body args)) in
    let debridApiKey := formData "DEBRID_API_KEY" in
    match debridApiKey with
    | Some k =>
        if truthyKey k then
          _ <- writeKey k ;;
          ret ConfigurationSaved
        else ret ConfigurationError
    | None => ret ConfigurationError
    end
  else ret ConfigureForm.

(** Lines 79-89: the title and year of the item, or the fallback title. *)
Definition contentId (id : string) : string :=
  if Str.startsWith id "tt" then substring 2 (String.length id) id else id.

Definition tmdbDetailsUrl (type id : string) : string :=
  "https://api.themoviedb.org/3/"
  ++ (if String.eqb type "movie" then "movie" else "tv")
  ++ "/" ++ contentId id ++ "?api_key=" ++ showOpt TMDB_API_KEY
  ++ "&language=ar-AE".

Definition fetchDetails (type id : string) : M World (option string * string) :=
  try_catch
    (tmdbDetailsResponse <- await (axios_get (tmdbDetailsUrl type id) []) ;;
     d <- dataOf tmdbDetailsResponse "title" ;;
     let title := orElse (d_title d) (d_name d) in
     let year :=
       substring 0 4
         (showOpt (orElse (orElse (d_release_date d) (d_first_air_date d))
                          (Some ""))) in
     ret (title, year))
    (fun detailError => ret (Some ("Content ID: " ++ id), "")).

(** Lines 98-159: the body of the [try]. *)
Definition unlock (debridApiKey : KeyValue) (title : option string)
  (magnet : string) (streams : list Stream) : M World (list Stream) :=
  addMagnetResponse <-
    await (axios_post (debridServiceEndpoint ++ "/torrents/addMagnet")
                      ("magnet=" ++ Str.encodeURIComponent magnet)
                      [bearer debridApiKey; formType]) ;;
  d1 <- dataOf addMagnetResponse "id" ;;
  let torrentId := d_id d1 in
  torrentInfoResponse <-
    await (axios_get (debridServiceEndpoint ++ "/torrents/info/"
                      ++ showOpt torrentId)
                     [bearer debridApiKey]) ;;
  d2 <- dataOf torrentInfoResponse "files" ;;
  files <- match d_files d2 with
           | Some fs => ret fs
           | None => throw (TypeError "reduce")
           end ;;
  match mainFile files, d_links d2 with
  | Some main, Some (link0 :: _) =>
      unrestrictResponse <-
        await (axios_post (debridServiceEndpoint ++ "/unrestrict/link")
                          ("link=" ++ Str.encodeURIComponent link0)
                          [bearer debridApiKey; formType]) ;;
      d3 <- dataOf unrestrictResponse "stream_link" ;;
      match d_stream_link d3 with
      | Some link =>
          if truthyStr link then ret (streams ++ [directStream link main])%list
          else ret streams
      | None => ret streams
      end
  | _, _ => ret (pushP2P title magnet streams)
  end.

(** Lines 97-182: the body of the [for] loop, from the [streams] before the
    iteration to the [streams] after it. *)
Definition forBody (debridApiKey : KeyValue) (title : option string)
  (magnet : string) (streams : list Stream) : M World (list Stream) :=
  if truthyKey debridApiKey then
    try_catch (unlock debridApiKey title magnet streams)
              (fun debridError => ret (pushP2P title magnet streams))
  else ret (pushP2P title magnet streams).

(** [for (const magnet of magnets) { ... }]. *)
Fixpoint forOf (debridApiKey : KeyValue) (title : option string)
  (magnets : list string) (streams : list Stream) : M World (list Stream) :=
  match magnets with
  | [] => ret streams
  | magnet :: rest =>
      streams' <- forBody debridApiKey title magnet streams ;;
      forOf debridApiKey title rest streams'
  end.

(** The handler with the list of candidates left open; the value it resolves
    to is the [streams] array of the returned object. *)
Definition streamHandlerOn (magnets : list string) (type id : string)
  : M World (list Stream) :=
  debridApiKey <- readKey ;;
  details <- fetchDetails type id ;;
  forOf debridApiKey (fst details) magnets [].

(** The callback given to [builder.defineStreamHandler]. *)
Definition defineStreamHandler (type id : string) : M World (list Stream) :=
  streamHandlerOn potentialMagnetLinks type id.

End Handlers.

(** ** The claims' vocabulary *)

(** [m] holds [btih:] followed by the forty characters [h], all in [cls]. *)
Definition matchesPattern (cls : ascii -> bool) (m h : string) : Prop :=
  exists pre post,
    m = pre ++ "btih:" ++ h ++ post
    /\ String.length h = 40 /\ Str.all cls h = true.

(** [p], lower-cased, ends in one of the suffixes of the allow-list. *)
Definition videoSuffixed (p : string) : Prop :=
  exists ext pre, In ext videoExtensions /\ Str.toLowerCase p = pre ++ ext.

(** [f] is the last of the largest video entries of [files]. *)
Definition lastLargest (files : list FileEntry) (f : FileEntry) : Prop :=
  exists before after,
    files = (before ++ f :: after)%list
    /\ videoSuffixed (path f)
    /\ (forall g, In g before -> videoSuffixed (path g) ->
                  (bytes g <= bytes f)%Z)
    /\ (forall g, In g after -> videoSuffixed (path g) ->
                  (bytes g < bytes f)%Z).

(** The base name of a path: [p.split('/').pop()]. *)
Definition baseName (p : string) : string := Str.pop (Str.split "/" p).

Fixpoint hasSlash (s : string) : bool :=
  match s with
  | EmptyString => false
  | String c r => Ascii.eqb c "/" || hasSlash r
  end.



(** What one candidate may add to [streams]: nothing, a peer-to-peer stream
    for its own hash, or a direct stream for the selected file. *)
Inductive Contribution (key : KeyValue) (title : option string)
  (magnet : string) : list Stream -> Prop :=
| contributes_nothing : Contribution key title magnet []
| contributes_p2p (h : string) :
    infoHashMatch magnet = Some h ->
    Contribution key title magnet [p2pStream h magnet title]
| contributes_direct (link : string) (files : list FileEntry)
    (main : FileEntry) :
    truthyKey key = true ->
    truthyStr link = true ->
    mainFile files = Some main ->
    Contribution key title magnet [directStream link main].

(** The run of the loop, candidate by candidate: [d] is what the iteration
    on [m] leaves in an empty [streams] when started in store [st]. *)
Inductive Trace {World} {RT : Runtime World} (key : KeyValue)
  (title : option string)
  : list string -> Store World -> list (list Stream) -> Store World -> Prop :=
| trace_done st : Trace key title [] st [] st
| trace_step m rest st d st1 ds st2 :
    forBody key title m [] st = (Ok d, st1) ->
    Trace key title rest st1 ds st2 ->
    Trace key title (m :: rest) st (d :: ds) st2.

(** The details lookup fails: the request rejects, or its response has no
    [data] to read the title from. *)
Definition detailsLookupFails {World} {RT : Runtime World}
  (type id : string) (st : Store World) : Prop :=
  match axios_get (tmdbDetailsUrl type id) [] (world st) with
  | (Throw _, _) => True
  | (Ok r, _) => data r = None
  end.

(** The request the configure handler acts on: a POST with a body whose
    parsed form holds a non-empty [DEBRID_API_KEY]. *)
Definition submittedKey {World} {RT : Runtime World} (args : Args)
  : option KeyValue :=
  if String.eqb (method args) "POST" then
    if truthyBody (body args) then
      match querystring_parse (bodyToString (body args)) "DEBRID_API_KEY" with
      | Some k => if truthyKey k then Some k else None
      | None => None
      end
    else None
  else None.

(** ** A scripted runtime, for running the handlers on examples *)

(** The world is the list of the outcomes the next remote calls will have;
    once it is used up the calls reject. *)
Definition Script : Type := list (Result Response).

Definition nextReply (w : Script) : Result Response * Script :=
  match w with
  | r :: rest => (r, rest)
  | [] => (Throw (Error "Network Error"), [])
  end.

(** First [=] of a [key=value] pair. *)
Fixpoint cutAtEq (s : string) : string * string :=
  match s with
  | EmptyString => (EmptyString, EmptyString)
  | String c r =>
      if Ascii.eqb c "=" then (EmptyString, r)
      else let (k, v) := cutAtEq r in (String c k, v)
  end.

(** A parser of [a=1&b=2] forms without escapes: one value gives a string,
    a repeated field an array. *)
Definition parseForm (text field : string) : option KeyValue :=
  let pairs := map cutAtEq (filter truthyStr (Str.split "&" text)) in
  match map snd (filter (fun kv => String.eqb (fst kv) field) pairs) with
  | [] => None
  | [v] => Some (KStr v)
  | vs => Some (KArr vs)
  end.

Definition scripted : Runtime Script := {|
  TMDB_API_KEY := Some "tmdb";
  axios_get := fun _ _ => nextReply;
  axios_post := fun _ _ _ => nextReply;
  querystring_parse := parseForm
|}.

Definition sampleHash : string := "0123456789abcdef0123456789ABCDEF01234567".

Definition sampleMagnet : string :=
  "magnet:?xt=urn:btih:0123456789abcdef0123456789ABCDEF01234567&dn=Film".

(** Forty characters of the class [[a-zA-Z0-9]] that are no hex digits. *)
Definition nonHexMagnet : string :=
  "magnet:?xt=urn:btih:zzzzzzzzzzzzzzzzzzzzzzzzzzzzzzzzzzzzzzzz".

Definition malformedMagnet : string := "magnet:?xt=urn:btih:tooshort".

Definition reply (d : Data) : Result Response := Ok (mkResponse (Some d)).

Definition detailsReply : Result Response :=
  reply (mkData None None None None (Some "Film") None (Some "2023-05-01") None).

Definition submitReply : Result Response :=
  reply (mkData (Some "JOB1") None None None None None None None).

Definition specFiles : list FileEntry :=
  [mkFile "a.txt" 100; mkFile "b.mkv" 50; mkFile "c.mp4" 200].

Definition tieFiles : list FileEntry :=
  [mkFile "a.mkv" 100; mkFile "b.mp4" 100].

Definition inspectReply (files : list FileEntry) : Result Response :=
  reply (mkData None (Some files) (Some ["https://real-debrid.com/d/L1"])
                None None None None None).

Definition unrestrictReply (link : option string) : Result Response :=
  reply (mkData None None None link None None None None).

Definition withKey (k : KeyValue) (w : Script) : Store Script := mkStore k w.

(** ** Characters of a text *)

(** [c] is one of the characters of [s]. *)
Fixpoint occurs (c : ascii) (s : string) : bool :=
  match s with
  | EmptyString => false
  | String x r => Ascii.eqb x c || occurs c r
  end.

(** The value of a hexadecimal digit written by [Str.hexDigit]. *)
Definition hexValue (c : ascii) : nat :=
  if Str.isDigit c then Str.code c - 48 else Str.code c - 55.

(** ** Genre table (addon.js 275-283) *)

(** The object literal [genres] of [getGenreName], key by key. *)
Definition genres : list (Z * string) :=
  [(28, "Action"); (12, "Adventure"); (16, "Animation"); (35, "Comedy");
   (80, "Crime"); (99, "Documentary"); (18, "Drama"); (10751, "Family");
   (14, "Fantasy"); (36, "History"); (27, "Horror"); (10402, "Music");
   (9648, "Mystery"); (10749, "Romance"); (878, "Science Fiction");
   (10770, "TV Movie"); (53, "Thriller"); (10752, "War"); (37, "Western")]%Z.

(** [table[id]] for an integer [id]. *)
Fixpoint property (table : list (Z * string)) (id : Z) : option string :=
  match table with
  | [] => None
  | (k, v) :: rest => if (k =? id)%Z then Some v else property rest id
  end.

(** [genres[id] || 'Unknown']. *)
Definition getGenreName (id : Z) : string :=
  match property genres id with
  | Some name => if truthyStr name then name else "Unknown"
  | None => "Unknown"
  end.

(** ** Catalog handler (addon.js 37-70) *)

(** Interpolation [${n}] of an integer (decimal below 10^21). *)
Definition showNum (n : Z) : string := NilZero.string_of_int (Z.to_int n).

Definition showOptNum (o : option Z) : string :=
  match o with
  | Some n => showNum n
  | None => "undefined"
  end.

(** An element of [response.data.results]: the properties the handler
    reads. *)
Record Item : Type := mkItem {
  i_imdb_id : option string;
  i_id : option Z;
  i_title : option string;
  i_name : option string;
  i_poster_path : option string;
  i_backdrop_path : option string;
  i_overview : option string;
  i_release_date : option string;
  i_first_air_date : option string;
  i_genre_ids : option (list Z)
}.

(** An element of [metas]; [None] in [meta_poster] and [meta_background] is
    the [null] of the source. *)
Record Meta : Type := mkMeta {
  meta_id : string;
  meta_type : string;
  meta_name : option string;
  meta_poster : option string;
  meta_background : option string;
  meta_description : option string;
  meta_releaseInfo : option string;
  meta_genres : list string
}.

Record CatalogData : Type := mkCatalogData { c_results : option (list Item) }.

Record CatalogResponse : Type :=
  mkCatalogResponse { c_data : option CatalogData }.

(** A number that is a safe integer: an integer of magnitude below 2^53.
    On these the arithmetic of the source is exact: the quotient by 20 is
    below 2^49, where doubles are 1/16 apart or closer, so rounding moves it
    by at most 1/32, while a quotient that is no integer is at least 1/20
    away from the nearest one; [Math.floor] of the rounded quotient is
    therefore the integer quotient, and adding 1 stays below 2^53. *)
Record SafeInt : Type := mkSafe {
  value : Z;
  value_safe : (Z.abs value <? 2 ^ 53)%Z = true
}.

(** The [extra] argument: [skip], a safe integer when present, is the only
    property read. *)
Record Extra : Type := mkExtra { skip : option SafeInt }.

(** [axios.get] on the discover endpoint, with the response typed as the
    catalog handler reads it. *)
Class CatalogClient (World : Type) : Type := {
  axios_get_results : string -> World -> Result CatalogResponse * World
}.

(** [item.imdb_id || item.id], interpolated. *)
Definition rawId (item : Item) : string :=
  if truthyOpt (i_imdb_id item) then showOpt (i_imdb_id item)
  else showOptNum (i_id item).

(** [p ? prefix + p : null]. *)
Definition imageUrl (prefix : string) (p : option string) : option string :=
  if truthyOpt p then Some (prefix ++ showOpt p) else None.

(** The callback of [tmdbItems.map]. *)
Definition toMeta (type : string) (item : Item) : Meta :=
  mkMeta ("tt" ++ rawId item)
         type
         (orElse (i_title item) (i_name item))
         (imageUrl "https://image.tmdb.org/t/p/w500" (i_poster_path item))
         (imageUrl "https://image.tmdb.org/t/p/original"
                   (i_backdrop_path item))
         (i_overview item)
         (orElse (i_release_date item) (i_first_air_date item))
         (match i_genre_ids item with
          | Some ids => map (fun id => getGenreName id) ids
          | None => []
          end).

(** [(extra && extra.skip) ? Math.floor(extra.skip / 20) + 1 : 1]. *)
Definition pageOf (extra : option Extra) : Z :=
  match extra with
  | Some e =>
      match skip e with
      | Some k =>
          if (value k =? 0)%Z then 1%Z else (value k / 20 + 1)%Z
      | None => 1%Z
      end
  | None => 1%Z
  end.

Definition unsupportedCatalog : JsError :=
  Error "Unsupported catalog type or ID".

Definition catalogFailure : JsError :=
  Error "Could not fetch catalog from TMDB. Please check your TMDB API Key.".

(** The [catalogs] and [idPrefixes] of the manifest (addon.js 19-33), by
    type and id. *)
Definition manifestCatalogs : list (string * string) :=
  [("movie", "arabic_movies_latest"); ("series", "arabic_series_latest")].

Definition idPrefixes : list string := ["tt"].

(** An [async] function that returns a promise settles as that promise. *)
Definition adopt {World A} (p : M World (M World A)) : M World A :=
  bind p (fun q => q).

Section Catalog.

Context {World : Type} {RT : Runtime World} {CC : CatalogClient World}.

(** Lines 39-46: the [if] / [else if] / [else] on type and id; [None] is
    the [else] branch. *)
Definition discoverUrl (type id : string) : option string :=
  if String.eqb type "movie" && String.eqb id "arabic_movies_latest" then
    Some ("https://api.themoviedb.org/3/discover/movie?api_key="
          ++ showOpt TMDB_API_KEY
          ++ "&language=ar-AE&sort_by=popularity.desc")
  else if String.eqb type "series" && String.eqb id "arabic_series_latest" then
    Some ("https://api.themoviedb.org/3/discover/tv?api_key="
          ++ showOpt TMDB_API_KEY
          ++ "&language=ar-AE&sort_by=popularity.desc")
  else None.

(** Lines 47-65, after the branch on type and id. *)
Definition fetchCatalog (type : string) (extra : option Extra)
  (tmdbUrl0 : string) : M World (list Meta) :=
  let page := pageOf extra in
  let tmdbUrl := tmdbUrl0 ++ "&page=" ++ showNum page in
  response <- await (axios_get_results tmdbUrl) ;;
  d <- match c_data response with
       | Some d => ret d
       | None => throw (TypeError "results")
       end ;;
  let tmdbItems := c_results d in
  match tmdbItems with
  | Some items => ret (map (toMeta type) items)
  | None => throw (TypeError "map")
  end.

(** The callback given to [builder.defineCatalogHandler].  Each [return] of
    the source returns a promise, which no [catch] of the function sees; the
    value it resolves to is the [metas] array of the returned object. *)
Definition defineCatalogHandler (type id : string) (extra : option Extra)
  : M World (list Meta) :=
  adopt
    (try_catch
       (match discoverUrl type id with
        | None => ret (throw unsupportedCatalog)
        | Some tmdbUrl0 =>
            metas <- fetchCatalog type extra tmdbUrl0 ;;
            ret (ret metas)
        end)
       (fun error => ret (throw catalogFailure))).

End Catalog.

(** ** Requests and the unlock sequence *)

(** A call of the [axios] client. *)
Inductive Request : Type :=
| Get (target : string) (headers : Headers)
| Post (target : string) (payload : string) (headers : Headers).

(** A runtime that answers as [RT] does and keeps the list of the calls
    made, oldest first. *)
Definition recording {World} (RT : Runtime World)
  : Runtime (World * list Request) := {|
  TMDB_API_KEY := @TMDB_API_KEY World RT;
  axios_get := fun u h wl =>
    let (r, w) := @axios_get World RT u h (fst wl) in
    (r, (w, (snd wl ++ [Get u h])%list));
  axios_post := fun u b h wl =>
    let (r, w) := @axios_post World RT u b h (fst wl) in
    (r, (w, (snd wl ++ [Post u b h])%list));
  querystring_parse := @querystring_parse World RT
|}.

Definition requests {World} (st : Store (World * list Request))
  : list Request := snd (world st).

(** The store without the record of the calls. *)
Definition played {World} (st : Store (World * list Request)) : Store World :=
  mkStore (GLOBAL_DEBRID_API_KEY st) (fst (world st)).

Definition targetOf (r : Request) : string :=
  match r with
  | Get u _ => u
  | Post u _ _ => u
  end.

Definition headersOf (r : Request) : Headers :=
  match r with
  | Get _ h => h
  | Post _ _ h => h
  end.

(** A call to the unlock service made in the name of [key]. *)
Definition unlockCall (key : KeyValue) (r : Request) : Prop :=
  (exists rest, targetOf r = debridServiceEndpoint ++ rest)
  /\ In (bearer key) (headersOf r).

(** The three calls of the unlock sequence all succeed on [magnet] from the
    store [st]: submit answers with data, inspect lists [main] as selected
    file and at least one link, unrestrict of the first link answers the
    non-empty [link]; [st'] is the store after the third call. *)
Definition UnlockSucceeds {World} {RT : Runtime World} (key : KeyValue)
  (magnet : string) (st : Store World) (link : string) (main : FileEntry)
  (st' : Store World) : Prop :=
  exists r1 d1 w1 r2 d2 w2 files link0 links r3 d3,
    axios_post (debridServiceEndpoint ++ "/torrents/addMagnet")
               ("magnet=" ++ Str.encodeURIComponent magnet)
               [bearer key; formType] (world st) = (Ok r1, w1)
    /\ data r1 = Some d1
    /\ axios_get (debridServiceEndpoint ++ "/torrents/info/"
                  ++ showOpt (d_id d1)) [bearer key] w1 = (Ok r2, w2)
    /\ data r2 = Some d2
    /\ d_files d2 = Some files
    /\ mainFile files = Some main
    /\ d_links d2 = Some (link0 :: links)
    /\ axios_post (debridServiceEndpoint ++ "/unrestrict/link")
                  ("link=" ++ Str.encodeURIComponent link0)
                  [bearer key; formType] w2 = (Ok r3, world st')
    /\ data r3 = Some d3
    /\ d_stream_link d3 = Some link
    /\ truthyStr link = true
    /\ GLOBAL_DEBRID_API_KEY st' = GLOBAL_DEBRID_API_KEY st.

(** The items a settled call of the discover endpoint carries, if any. *)
Definition resultsOf (r : Result CatalogResponse) : option (list Item) :=
  match r with
  | Ok response =>
      match c_data response with
      | Some d => c_results d
      | None => None
      end
  | Throw _ => None
  end.

(** ** A catalog service for examples *)

Definition sampleItem : Item :=
  mkItem None (Some 550%Z) (Some "Film") None (Some "/p.jpg") None
         (Some "Overview") (Some "2023-05-01") None (Some [28; 7; 18]%Z).

(** Answers every call with the one-item page; the world is untouched. *)
Definition fixedCatalog : CatalogClient Script := {|
  axios_get_results := fun _ w =>
    (Ok (mkCatalogResponse (Some (mkCatalogData (Some [sampleItem])))), w)
|}.

(** Rejects every call. *)
Definition downCatalog : CatalogClient Script := {|
  axios_get_results := fun _ w => (Throw (Error "Network Error"), w)
|}.

(** * Properties *)

(** ** Strings *)

Lemma append_nil_r (s : string) : s ++ "" = s.
Proof. induction s as [|c s IH]; simpl; [reflexivity | now rewrite IH]. Qed.


Lemma length_append (a b : string) :
  String.length (a ++ b) = String.length a + String.length b.
Proof. induction a as [|x a IH]; simpl; [reflexivity | now rewrite IH]. Qed.

Lemma endsWith_unfold (s suffix : string) :
  Str.endsWith s suffix
  = (String.eqb s suffix
     || match s with
        | EmptyString => false
        | String _ r => Str.endsWith r suffix
        end).
Proof. now destruct s. Qed.

Lemma endsWith_iff (s suffix : string) :
  Str.endsWith s suffix = true <-> exists pre, s = pre ++ suffix.
Proof.
  induction s as [|c s IH]; rewrite endsWith_unfold.
  - rewrite orb_false_r, String.eqb_eq. split.
    + intros ->. now exists "".
    + intros [pre E]. destruct pre; simpl in E; [now symmetry | discriminate].
  - rewrite orb_true_iff, String.eqb_eq, IH. split.
    + intros [E | [pre E]].
      * exists "". now rewrite <- E.
      * exists (String c pre). simpl. now rewrite E.
    + intros [pre E]. destruct pre as [|x pre]; simpl in E.
      * now left.
      * right. exists pre. now inversion E.
Qed.

Lemma isVideo_iff (p : string) : isVideo p = true <-> videoSuffixed p.
Proof.
  unfold isVideo, videoSuffixed. rewrite existsb_exists. split.
  - intros [ext [Hin He]]. apply endsWith_iff in He as [pre E]. now exists ext, pre.
  - intros [ext [pre [Hin E]]]. exists ext. split; [assumption|].
    apply endsWith_iff. now exists pre.
Qed.

Lemma startsWith_iff (s p : string) :
  Str.startsWith s p = true <-> exists rest, s = p ++ rest.
Proof.
  revert s. induction p as [|a p IH]; intros s.
  - split; [intros _; now exists s | reflexivity].
  - destruct s as [|b s]; simpl.
    + split; [discriminate | intros [rest E]; discriminate].
    + rewrite andb_true_iff, Ascii.eqb_eq, IH. split.
      * intros [-> [rest ->]]. now exists rest.
      * intros [rest E]. inversion E; subst. split; [reflexivity | now exists rest].
Qed.

Lemma substring_take (n : nat) (s : string) :
  String.length (substring 0 n s) = n ->
  exists post, s = substring 0 n s ++ post.
Proof.
  revert s. induction n as [|n IH]; intros s H.
  - exists s. now destruct s.
  - destruct s as [|c s]; simpl in *; [discriminate|].
    injection H as H. destruct (IH s H) as [post E].
    exists post. now rewrite <- E.
Qed.

Lemma substring_prefix (h post : string) :
  substring 0 (String.length h) (h ++ post) = h.
Proof.
  induction h as [|c h IH]; simpl.
  - now destruct post.
  - now rewrite IH.
Qed.

(** ** The hash pattern *)

Lemma matchHere_sound cls s h :
  matchHere cls s = Some h ->
  exists post,
    s = "btih:" ++ h ++ post /\ String.length h = 40 /\ Str.all cls h = true.
Proof.
  unfold matchHere. destruct (Str.startsWith s "btih:") eqn:Hp; [|discriminate].
  apply startsWith_iff in Hp as [rest ->].
  change (substring 5 40 ("btih:" ++ rest)) with (substring 0 40 rest).
  destruct (String.length (substring 0 40 rest) =? 40)%nat eqn:Hl;
    [|discriminate].
  destruct (Str.all cls (substring 0 40 rest)) eqn:Ha; [|discriminate].
  simpl. intros [= <-]. apply Nat.eqb_eq in Hl.
  destruct (substring_take 40 rest Hl) as [post E].
  exists post. repeat split; try assumption. now rewrite <- E.
Qed.

Lemma matchHere_complete cls h post :
  String.length h = 40 -> Str.all cls h = true ->
  matchHere cls ("btih:" ++ h ++ post) = Some h.
Proof.
  intros Hl Ha. unfold matchHere.
  assert (E : substring 0 40 (h ++ post) = h)
    by (rewrite <- Hl; apply substring_prefix).
  change (Str.startsWith ("btih:" ++ h ++ post) "btih:") with true.
  change (substring 5 40 ("btih:" ++ h ++ post)) with (substring 0 40 (h ++ post)).
  cbv iota. rewrite E, Hl, Ha. reflexivity.
Qed.

Lemma search_sound cls m h : search cls m = Some h -> matchesPattern cls m h.
Proof.
  induction m as [|c m IH]; cbn [search].
  - destruct (matchHere cls "") eqn:E; [|discriminate].
    intros [= ->]. apply matchHere_sound in E as [post [E1 E2]]. discriminate.
  - destruct (matchHere cls (String c m)) eqn:E.
    + intros [= ->]. apply matchHere_sound in E as [post [E1 [E2 E3]]].
      exists "", post. auto.
    + intros H. destruct (IH H) as [pre [post [E1 [E2 E3]]]].
      exists (String c pre), post. simpl. rewrite E1. auto.
Qed.

Lemma search_unfold cls s :
  search cls s
  = match matchHere cls s with
    | Some h => Some h
    | None => match s with
              | EmptyString => None
              | String _ r => search cls r
              end
    end.
Proof. now destruct s. Qed.

Lemma search_complete cls m h :
  matchesPattern cls m h -> exists h', search cls m = Some h'.
Proof.
  intros [pre [post [-> [Hl Ha]]]].
  induction pre as [|c pre IH].
  - exists h. rewrite search_unfold.
    change ("" ++ "btih:" ++ h ++ post) with ("btih:" ++ h ++ post).
    now rewrite (matchHere_complete cls h post Hl Ha).
  - destruct IH as [h' IH]. rewrite search_unfold.
    destruct (matchHere cls (String c pre ++ "btih:" ++ h ++ post)) as [h0|].
    + now exists h0.
    + now exists h'.
Qed.

Lemma search_none cls m :
  search cls m = None <-> forall h, ~ matchesPattern cls m h.
Proof.
  split.
  - intros E h Hm. destruct (search_complete _ _ _ Hm) as [h' E']. congruence.
  - intros H. destruct (search cls m) as [h|] eqn:E; [|reflexivity].
    exfalso. exact (H h (search_sound _ _ _ E)).
Qed.

(** ** Base names *)

Lemma split_nonempty p : Str.split "/" p <> [].
Proof.
  destruct p as [|c p]; simpl; [discriminate|].
  destruct (Ascii.eqb c "/"); [discriminate|].
  destruct (Str.split "/" p); discriminate.
Qed.





(** ** File selection *)

Lemma mainFile_snoc l x : mainFile (l ++ [x]) = reducer (mainFile l) x.
Proof. unfold mainFile. now rewrite fold_left_app. Qed.

Lemma mainFile_none files :
  mainFile files = None -> forall g, In g files -> isVideo (path g) = false.
Proof.
  induction files as [|x l IH] using rev_ind; intros H g Hin.
  - destruct Hin.
  - rewrite mainFile_snoc in H. unfold reducer in H.
    destruct (isVideo (path x)) eqn:Hv.
    + destruct (mainFile l) as [p|]; [|discriminate].
      destruct (bytes p >? bytes x)%Z; discriminate.
    + apply in_app_or in Hin as [Hin | [<- | []]]; auto.
Qed.

Lemma mainFile_some files f : mainFile files = Some f -> lastLargest files f.
Proof.
  revert f. induction files as [|x l IH] using rev_ind; intros f H.
  - discriminate.
  - rewrite mainFile_snoc in H. unfold reducer in H.
    destruct (isVideo (path x)) eqn:Hv.
    + destruct (mainFile l) as [p|] eqn:Ep.
      * destruct (IH p eq_refl) as [b [a [E [V [Hb Ha]]]]].
        destruct (bytes p >? bytes x)%Z eqn:Hc; injection H as <-.
        -- apply Z.gtb_lt in Hc.
           exists b, (a ++ [x])%list. repeat split; try assumption.
           ++ rewrite E, <- app_assoc. reflexivity.
           ++ intros g Hg Vg. apply in_app_or in Hg as [Hg | [<- | []]]; auto.
        -- assert (bytes p <= bytes x)%Z as Hle
             by (destruct (Z.gtb_spec (bytes p) (bytes x)); [discriminate | lia]).
           exists l, []. repeat split.
           ++ now apply isVideo_iff.
           ++ intros g Hg Vg. rewrite E in Hg.
              apply in_app_or in Hg as [Hg | [<- | Hg]].
              ** specialize (Hb g Hg Vg). lia.
              ** assumption.
              ** specialize (Ha g Hg Vg). lia.
           ++ intros g [].
      * injection H as <-. exists l, []. repeat split.
        -- now apply isVideo_iff.
        -- intros g Hg Vg. apply isVideo_iff in Vg.
           rewrite (mainFile_none l Ep g Hg) in Vg. discriminate.
        -- intros g [].
    + destruct (IH f H) as [b [a [E [V [Hb Ha]]]]].
      exists b, (a ++ [x])%list. repeat split; try assumption.
      * rewrite E, <- app_assoc. reflexivity.
      * intros g Hg Vg. apply in_app_or in Hg as [Hg | [<- | []]]; auto.
        apply isVideo_iff in Vg. congruence.
Qed.

(** C2 (as amended).  When some entry of the list has a path that ends,
    case-insensitively, in one of the five video suffixes, the selection
    returns an entry: a video entry of largest byte size, and among the
    entries of that size the latest one (every video entry before it is at
    most as large, every video entry after it is strictly smaller).  On the
    list a.txt/100, b.mkv/50, c.mp4/200 the selection is c.mp4. *)
Theorem mainFile_last_largest (files : list FileEntry) (g : FileEntry)
  (Hin : In g files) (Hvideo : videoSuffixed (path g)) :
  (exists f, mainFile files = Some f /\ lastLargest files f)
  /\ mainFile specFiles = Some (mkFile "c.mp4" 200).
Proof.
  split; [|reflexivity].
  destruct (mainFile files) as [f|] eqn:E.
  - exists f. split; [reflexivity | now apply mainFile_some].
  - apply isVideo_iff in Hvideo.
    rewrite (mainFile_none files E g Hin) in Hvideo. discriminate.
Qed.

Lemma mainFile_last_largest_witness :
  (exists f, mainFile specFiles = Some f /\ lastLargest specFiles f)
  /\ mainFile specFiles = Some (mkFile "c.mp4" 200).
Proof.
  apply (mainFile_last_largest specFiles (mkFile "b.mkv" 50)).
  - simpl. auto.
  - exists ".mkv", "b". split; [simpl; auto | reflexivity].
Defined.

(** C2, the claim as worded fails: of two video entries of equal size the
    source keeps the later one, the specification's rule the earlier one. *)
Lemma mainFile_tie_keeps_latest :
  isVideo "a.mkv" = true /\ isVideo "b.mp4" = true
  /\ mainFile tieFiles = Some (mkFile "b.mp4" 100)
  /\ spec_mainFile tieFiles = Some (mkFile "a.mkv" 100)
  /\ mainFile tieFiles <> spec_mainFile tieFiles.
Proof. repeat split; discriminate. Qed.

(** ** The loop of the stream handler *)

Section HandlerFacts.

Context {World : Type} {RT : Runtime World}.

Lemma pushP2P_frame title magnet streams :
  pushP2P title magnet streams = (streams ++ pushP2P title magnet [])%list.
Proof.
  unfold pushP2P. destruct (infoHashMatch magnet) as [h|].
  - destruct (truthyStr h); [reflexivity | now rewrite app_nil_r].
  - now rewrite app_nil_r.
Qed.

Lemma hash_truthy m h : infoHashMatch m = Some h -> truthyStr h = true.
Proof.
  intros H. apply search_sound in H as [pre [post [_ [Hl _]]]].
  now destruct h.
Qed.

Lemma pushP2P_match title m h :
  infoHashMatch m = Some h -> pushP2P title m [] = [p2pStream h m title].
Proof.
  intros H. unfold pushP2P. now rewrite H, (hash_truthy m h H).
Qed.

Lemma pushP2P_nomatch title m :
  infoHashMatch m = None -> pushP2P title m [] = [].
Proof. intros H. unfold pushP2P. now rewrite H. Qed.

Lemma pushP2P_contribution key title m :
  Contribution key title m (pushP2P title m []).
Proof.
  destruct (infoHashMatch m) as [h|] eqn:E.
  - rewrite (pushP2P_match _ _ _ E). now constructor.
  - rewrite (pushP2P_nomatch _ _ E). constructor.
Qed.

(** Case analysis on an innermost scrutinee of the goal. *)
Ltac step_match :=
  match goal with
  | |- context [match ?x with _ => _ end] =>
      lazymatch x with
      | context [match _ with _ => _ end] => fail
      | _ => destruct x eqn:?
      end
  end; cbv beta iota.

Ltac run_handler :=
  unfold bind, await, dataOf, ret, throw, try_catch; cbv beta iota;
  repeat step_match; subst; cbn [GLOBAL_DEBRID_API_KEY world].

(** One iteration resolves, appends to [streams] what it would have given
    from the empty array, and leaves the credential alone. *)
Lemma forBody_runs key title m streams st :
  exists d st',
    forBody key title m streams st = (Ok (streams ++ d)%list, st')
    /\ forBody key title m [] st = (Ok d, st')
    /\ Contribution key title m d
    /\ GLOBAL_DEBRID_API_KEY st' = GLOBAL_DEBRID_API_KEY st.
Proof.
  unfold forBody. destruct (truthyKey key) eqn:Hk.
  - unfold unlock. run_handler.
    all: try (eexists; eexists; split;
           [try rewrite (pushP2P_frame title m streams); reflexivity|];
           split; [reflexivity|]; split;
           [first [apply pushP2P_contribution | econstructor; eassumption]
           | reflexivity]).
    all: exists []; eexists; rewrite app_nil_r; repeat split; constructor.
  - run_handler. eexists; eexists; split;
      [rewrite (pushP2P_frame title m streams); reflexivity|].
    split; [reflexivity|]. split; [apply pushP2P_contribution | reflexivity].
Qed.

(** A throw anywhere in the unlock sequence ends in the catch block, which
    is the peer-to-peer fallback. *)
Lemma forBody_catches key title m streams st e st' :
  truthyKey key = true ->
  unlock key title m streams st = (Throw e, st') ->
  forBody key title m streams st = (Ok (pushP2P title m streams), st').
Proof.
  intros Hk E. unfold forBody, try_catch. now rewrite Hk, E.
Qed.

Lemma forBody_nokey key title m streams st :
  truthyKey key = false ->
  forBody key title m streams st = (Ok (pushP2P title m streams), st).
Proof. intros Hk. unfold forBody. now rewrite Hk. Qed.

Lemma forOf_app key title l1 l2 streams st :
  forOf key title (l1 ++ l2) streams st
  = bind (forOf key title l1 streams) (forOf key title l2) st.
Proof.
  revert streams st. induction l1 as [|m l1 IH]; intros streams st.
  - reflexivity.
  - cbn [forOf app]. unfold bind.
    destruct (forBody key title m streams st) as [[s1|e] st1].
    + now rewrite IH.
    + reflexivity.
Qed.

(** The loop resolves to [streams] followed by the contributions of the
    candidates, one after the other. *)
Lemma forOf_runs key title magnets streams st :
  exists ds st',
    forOf key title magnets streams st = (Ok (streams ++ concat ds)%list, st')
    /\ Trace key title magnets st ds st'
    /\ Forall2 (Contribution key title) magnets ds
    /\ GLOBAL_DEBRID_API_KEY st' = GLOBAL_DEBRID_API_KEY st.
Proof.
  revert streams st. induction magnets as [|m rest IH]; intros streams st.
  - exists [], st. cbn. rewrite app_nil_r. repeat split; constructor.
  - destruct (forBody_runs key title m streams st) as [d [st1 [E1 [E0 [C K1]]]]].
    destruct (IH (streams ++ d)%list st1) as [ds [st2 [E2 [T [F K2]]]]].
    exists (d :: ds), st2. cbn [forOf concat]. unfold bind. rewrite E1, E2.
    rewrite <- app_assoc. repeat split.
    + econstructor; eassumption.
    + now constructor.
    + congruence.
Qed.

Lemma forOf_nokey key title magnets streams st :
  truthyKey key = false ->
  forOf key title magnets streams st
  = (Ok (streams ++ flat_map (fun m => pushP2P title m []) magnets)%list, st).
Proof.
  intros Hk. revert streams.
  induction magnets as [|m rest IH]; intros streams; cbn [forOf flat_map].
  - unfold ret. now rewrite app_nil_r.
  - unfold bind. rewrite (forBody_nokey _ _ _ _ _ Hk), IH.
    rewrite (pushP2P_frame title m streams), <- app_assoc. reflexivity.
Qed.

Lemma contribution_short key title m d :
  Contribution key title m d -> length d <= 1.
Proof. intros []; simpl; lia. Qed.

(** The details block resolves whatever the lookup does. *)
Lemma fetchDetails_runs type id st :
  exists details st',
    fetchDetails type id st = (Ok details, st')
    /\ GLOBAL_DEBRID_API_KEY st' = GLOBAL_DEBRID_API_KEY st.
Proof.
  unfold fetchDetails. run_handler; eexists; eexists; split; reflexivity.
Qed.

(** The handler is the loop run after the details block. *)
Lemma streamHandlerOn_runs magnets type id st :
  exists details st0 ds st',
    fetchDetails type id st = (Ok details, st0)
    /\ streamHandlerOn magnets type id st = (Ok (concat ds), st')
    /\ streamHandlerOn magnets type id st
       = forOf (GLOBAL_DEBRID_API_KEY st) (fst details) magnets [] st0
    /\ Trace (GLOBAL_DEBRID_API_KEY st) (fst details) magnets st0 ds st'
    /\ Forall2 (Contribution (GLOBAL_DEBRID_API_KEY st) (fst details))
               magnets ds.
Proof.
  destruct (fetchDetails_runs type id st) as [details [st0 [E0 K0]]].
  destruct (forOf_runs (GLOBAL_DEBRID_API_KEY st) (fst details) magnets [] st0)
    as [ds [st' [E [T [F K]]]]].
  exists details, st0, ds, st'.
  assert (streamHandlerOn magnets type id st
          = forOf (GLOBAL_DEBRID_API_KEY st) (fst details) magnets [] st0) as R.
  { unfold streamHandlerOn, bind, readKey. now rewrite E0. }
  repeat split; try assumption. now rewrite R, E.
Qed.

End HandlerFacts.

(** ** Positions in the output *)

Lemma sorted_shift (l : list nat) :
  StronglySorted lt l -> StronglySorted lt (map S l).
Proof.
  induction 1 as [|a l Hs IH Ha]; cbn; constructor; [assumption|].
  apply Forall_map. eapply Forall_impl; [|exact Ha]. cbn. lia.
Qed.

Lemma origins_of_concat (ds : list (list Stream)) :
  Forall (fun d => length d <= 1) ds ->
  exists origins,
    StronglySorted lt origins
    /\ Forall2 (fun s i => nth_error ds i = Some [s]) (concat ds) origins.
Proof.
  induction 1 as [|d ds Hd Hds [origins [Hs Ho]]].
  - exists []. split; constructor.
  - assert (Forall2 (fun s i => nth_error (d :: ds) i = Some [s])
                    (concat ds) (map S origins)) as Hshift.
    { clear -Ho. induction Ho; cbn; constructor; assumption. }
    destruct d as [|s [|s' d]]; cbn in Hd; [| |lia].
    + exists (map S origins). split; [now apply sorted_shift | exact Hshift].
    + exists (0 :: map S origins). split.
      * constructor; [now apply sorted_shift|].
        apply Forall_map, Forall_forall. intros; lia.
      * cbn. constructor; [reflexivity | exact Hshift].
Qed.

Lemma Forall2_nth_left {A B} (R : A -> B -> Prop) l l' i b :
  Forall2 R l l' -> nth_error l' i = Some b ->
  exists a, nth_error l i = Some a /\ R a b.
Proof.
  intros H. revert i. induction H as [|x y l l' Hxy H IH]; intros i Hi.
  - destruct i; discriminate.
  - destruct i as [|i]; cbn in *.
    + injection Hi as <-. now exists x.
    + now apply IH.
Qed.

(** ** The claims on the handlers *)

Section Claims.

Context {World : Type} {RT : Runtime World}.

(** C5.  The output is the concatenation, in the order of the candidate
    list, of what each candidate's iteration contributes, and each
    contributes at most one descriptor: the descriptors can be numbered by
    strictly increasing positions of the candidates they come from. *)
Theorem output_in_candidate_order (magnets : list string) (type id : string)
  (st : Store World) :
  exists key title st0 ds st' origins,
    Trace key title magnets st0 ds st'
    /\ streamHandlerOn magnets type id st = (Ok (concat ds), st')
    /\ Forall (fun d => length d <= 1) ds
    /\ StronglySorted lt origins
    /\ Forall2 (fun s i => exists m, nth_error magnets i = Some m
                                     /\ nth_error ds i = Some [s])
               (concat ds) origins.
Proof.
  destruct (streamHandlerOn_runs magnets type id st)
    as [details [st0 [ds [st' [_ [E [_ [T F]]]]]]]].
  assert (Forall (fun d => length d <= 1) ds) as Hshort.
  { clear -F. induction F; constructor; [|assumption].
    eapply contribution_short; eassumption. }
  destruct (origins_of_concat ds Hshort) as [origins [Hs Ho]].
  exists (GLOBAL_DEBRID_API_KEY st), (fst details), st0, ds, st', origins.
  repeat split; try assumption.
  eapply Forall2_impl; [|exact Ho]. cbn. intros s i Hi.
  destruct (Forall2_nth_left _ _ _ _ _ F Hi) as [m [Hm _]].
  now exists m.
Qed.

(** C6.  Whatever the remote calls do, the handler resolves to a list of
    streams; and the loop over the first candidates resolves and hands its
    [streams] on to the iterations of the candidates that follow. *)
Theorem handler_always_resolves (magnets : list string) (type id : string)
  (st : Store World) (l1 l2 : list string) (key : KeyValue)
  (title : option string) (s0 : list Stream) (st0 : Store World) :
  (exists streams st',
      streamHandlerOn magnets type id st = (Ok streams, st'))
  /\ (exists s1 st1,
         forOf key title l1 s0 st0 = (Ok s1, st1)
         /\ forOf key title (l1 ++ l2) s0 st0 = forOf key title l2 s1 st1).
Proof.
  split.
  - destruct (streamHandlerOn_runs magnets type id st)
      as [details [st1 [ds [st' [_ [E _]]]]]].
    now exists (concat ds), st'.
  - destruct (forOf_runs key title l1 s0 st0) as [ds [st1 [E _]]].
    exists (s0 ++ concat ds)%list, st1. split; [assumption|].
    rewrite forOf_app. unfold bind. now rewrite E.
Qed.

(** C7.  With no candidates the handler resolves to the empty list; the
    handler of the source, whose candidate list is empty, always does. *)
Theorem empty_candidates_resolve_empty (type id : string) (st : Store World) :
  exists st',
    streamHandlerOn [] type id st = (Ok [], st')
    /\ defineStreamHandler type id st = (Ok [], st')
    /\ GLOBAL_DEBRID_API_KEY st' = GLOBAL_DEBRID_API_KEY st.
Proof.
  destruct (fetchDetails_runs type id st) as [details [st' [E K]]].
  exists st'. unfold defineStreamHandler, potentialMagnetLinks.
  unfold streamHandlerOn, bind, readKey. rewrite E. cbn. auto.
Qed.

Lemma contributions_all key title (P : Stream -> Prop) magnets ds :
  Forall2 (Contribution key title) magnets ds ->
  (forall m d, In m magnets -> Contribution key title m d -> Forall P d) ->
  Forall P (concat ds).
Proof.
  induction 1 as [|m d magnets ds C F IH]; intros HP; cbn.
  - constructor.
  - apply Forall_app. split.
    + apply (HP m d); [now left | assumption].
    + apply IH. intros m' d' Hin. apply HP. now right.
Qed.

Lemma handler_nokey type id st :
  truthyKey (GLOBAL_DEBRID_API_KEY st) = false ->
  exists details st0,
    fetchDetails type id st = (Ok details, st0)
    /\ forall l,
        streamHandlerOn l type id st
        = (Ok (flat_map (fun m => pushP2P (fst details) m []) l), st0)
        /\ forOf (GLOBAL_DEBRID_API_KEY st) (fst details) l [] st0
           = (Ok (flat_map (fun m => pushP2P (fst details) m []) l), st0).
Proof.
  intros Hk. destruct (fetchDetails_runs type id st) as [details [st0 [E K]]].
  exists details, st0. split; [assumption|]. intros l.
  assert (forOf (GLOBAL_DEBRID_API_KEY st) (fst details) l [] st0
          = (Ok (flat_map (fun m => pushP2P (fst details) m []) l), st0)) as R
    by (now rewrite forOf_nokey).
  split; [|exact R].
  unfold streamHandlerOn, bind, readKey. now rewrite E.
Qed.

(** C8.  When the details lookup fails the title becomes ["Content ID: "]
    followed by the raw id, the handler goes on to the loop with that title
    and resolves; every peer-to-peer stream of the output is labelled with
    it. *)
Theorem title_falls_back_to_content_id (magnets : list string)
  (type id : string) (st : Store World)
  (Hfail : detailsLookupFails type id st) :
  exists st0 streams st',
    fetchDetails type id st = (Ok (Some ("Content ID: " ++ id), ""), st0)
    /\ streamHandlerOn magnets type id st
       = forOf (GLOBAL_DEBRID_API_KEY st) (Some ("Content ID: " ++ id))
               magnets [] st0
    /\ streamHandlerOn magnets type id st = (Ok streams, st')
    /\ Forall (fun s => sources s = None
                        \/ title s = "[P2P] Content ID: " ++ id ++ " (Torrent)")
              streams.
Proof.
  assert (exists st0, fetchDetails type id st
                      = (Ok (Some ("Content ID: " ++ id), ""), st0)) as [st0 E0].
  { unfold detailsLookupFails in Hfail.
    unfold fetchDetails, try_catch, bind, await, dataOf, ret, throw.
    destruct (axios_get (tmdbDetailsUrl type id) [] (world st)) as [[r|e] w].
    - rewrite Hfail. eexists; reflexivity.
    - eexists; reflexivity. }
  destruct (streamHandlerOn_runs magnets type id st)
    as [details [st1 [ds [st' [E1 [E [R [_ F]]]]]]]].
  rewrite E0 in E1. injection E1 as <- <-. cbn [fst] in *.
  exists st0, (concat ds), st'. repeat split; try assumption.
  apply (contributions_all _ _ _ _ _ F).
  intros m d _ [|h Hh|link files main Hk Hl Hm];
    [constructor | constructor; [|constructor] ..].
  - right. reflexivity.
  - left. reflexivity.
Qed.


(** C4.  With no credential, a candidate whose magnet matches the pattern
    contributes exactly one descriptor, between the output of the
    candidates before it and the output of those after it: a peer-to-peer
    stream whose infoHash is the captured hash and whose sources is the
    one-element list of the raw magnet. *)
Theorem valid_candidate_without_key (pre : list string) (m : string)
  (post : list string) (h type id : string) (st : Store World)
  (Hkey : truthyKey (GLOBAL_DEBRID_API_KEY st) = false)
  (Hm : infoHashMatch m = Some h) :
  exists title st0 before after,
    streamHandlerOn (pre ++ m :: post) type id st
    = (Ok (before ++ p2pStream h m title :: after)%list, st0)
    /\ streamHandlerOn pre type id st = (Ok before, st0)
    /\ forBody (GLOBAL_DEBRID_API_KEY st) title m [] st0
       = (Ok [p2pStream h m title], st0)
    /\ forOf (GLOBAL_DEBRID_API_KEY st) title post [] st0 = (Ok after, st0)
    /\ url (p2pStream h m title) = None
    /\ infoHash (p2pStream h m title) = Some h
    /\ sources (p2pStream h m title) = Some [m].
Proof.
  destruct (handler_nokey type id st Hkey)
    as [details [st0 [E R]]].
  set (one := fun c => pushP2P (fst details) c []) in *.
  exists (fst details), st0, (flat_map one pre), (flat_map one post).
  repeat split.
  - rewrite (proj1 (R _)), flat_map_app. cbn [flat_map]. unfold one at 2.
    now rewrite (pushP2P_match _ _ _ Hm).
  - apply R.
  - rewrite (forBody_nokey _ _ _ _ _ Hkey).
    now rewrite (pushP2P_match _ _ _ Hm).
  - apply R.
Qed.

(** C3 (as amended).  A peer-to-peer stream of the output comes from a
    candidate that holds ["btih:"] followed by forty characters of
    [[a-zA-Z0-9]], which are its infoHash, and has that candidate as its
    sources.  A candidate without such a match gives no peer-to-peer
    stream; with no credential the output is the one of the list without
    that candidate. *)
Theorem p2p_requires_alnum_pattern (magnets pre : list string) (m : string)
  (post : list string) (type id : string) (st : Store World) :
  (exists title streams st',
      streamHandlerOn magnets type id st = (Ok streams, st')
      /\ Forall (fun s =>
                   (infoHash s = None /\ sources s = None)
                   \/ exists c h, In c magnets
                                  /\ matchesPattern Str.isAlnum c h
                                  /\ s = p2pStream h c title) streams)
  /\ ((forall h, ~ matchesPattern Str.isAlnum m h) ->
      truthyKey (GLOBAL_DEBRID_API_KEY st) = false ->
      streamHandlerOn (pre ++ m :: post) type id st
      = streamHandlerOn (pre ++ post) type id st).
Proof.
  split.
  - destruct (streamHandlerOn_runs magnets type id st)
      as [details [st1 [ds [st' [_ [E [_ [_ F]]]]]]]].
    exists (fst details), (concat ds), st'. split; [assumption|].
    apply (contributions_all _ _ _ _ _ F).
    intros c d Hin [|h Hh|link files main Hk Hl Hm];
      [constructor | constructor; [|constructor] ..].
    + right. exists c, h. repeat split; try assumption.
      now apply search_sound.
    + left. now split.
  - intros Hbad Hkey. apply search_none in Hbad.
    destruct (handler_nokey type id st Hkey) as [details [st0 [E R]]].
    rewrite (proj1 (R (pre ++ m :: post)%list)), (proj1 (R (pre ++ post)%list)).
    rewrite !flat_map_app. cbn [flat_map].
    now rewrite (pushP2P_nomatch _ _ Hbad).
Qed.

(** A repeated field reaches the handler as an array, which its test takes
    for a value whatever the array holds: it is stored as the credential. *)
Lemma repeated_field_is_stored (text : string) (values : list string)
  (st : Store World) :
  truthyStr text = true ->
  querystring_parse text "DEBRID_API_KEY" = Some (KArr values) ->
  defineConfigureHandler (mkArgs "POST" (Some (BodyString text))) st
  = (Ok ConfigurationSaved, mkStore (KArr values) (world st)).
Proof.
  intros Ht Hp. unfold defineConfigureHandler.
  cbn [method body truthyBody bodyToString]. rewrite Ht, Hp. reflexivity.
Qed.

(** The configure handler by its own test.  It always resolves to a page.
    It stores a new credential exactly for a POST with a body whose parsed
    form holds a [DEBRID_API_KEY] that the test [if (debridApiKey)] lets
    through (a non-empty string, or an array): the store then holds that
    value, whatever it held before; for every other request the store is
    unchanged.  After two requests the credential is the one of the last
    submission. *)
Theorem configure_last_write_wins (args args' : Args) (st : Store World) :
  match submittedKey args with
  | Some k =>
      truthyKey k = true
      /\ defineConfigureHandler args st
         = (Ok ConfigurationSaved, mkStore k (world st))
  | None => exists page, defineConfigureHandler args st = (Ok page, st)
  end
  /\ GLOBAL_DEBRID_API_KEY
       (snd (bind (defineConfigureHandler args)
                  (fun _ => defineConfigureHandler args') st))
     = match submittedKey args', submittedKey args with
       | Some k', _ => k'
       | None, Some k => k
       | None, None => GLOBAL_DEBRID_API_KEY st
       end.
Proof.
  assert (forall a s,
             match submittedKey a with
             | Some k =>
                 truthyKey k = true
                 /\ defineConfigureHandler a s
                    = (Ok ConfigurationSaved, mkStore k (world s))
             | None => exists page, defineConfigureHandler a s = (Ok page, s)
             end) as H.
  { intros a s. unfold submittedKey, defineConfigureHandler.
    destruct (String.eqb (method a) "POST"); cbn [andb].
    - destruct (truthyBody (body a)).
      + destruct (querystring_parse (bodyToString (body a)) "DEBRID_API_KEY")
          as [k|].
        * destruct (truthyKey k) eqn:Hk.
          -- split; [assumption | reflexivity].
          -- now exists ConfigurationError.
        * now exists ConfigurationError.
      + now exists ConfigureForm.
    - now exists ConfigureForm. }
  split; [apply H|].
  unfold bind.
  assert (H1 := H args st).
  destruct (submittedKey args) as [k|].
  - destruct H1 as [_ ->].
    assert (H2 := H args' (mkStore k (world st))).
    destruct (submittedKey args') as [k'|].
    + destruct H2 as [_ ->]. reflexivity.
    + destruct H2 as [page ->]. reflexivity.
  - destruct H1 as [page ->].
    assert (H2 := H args' st).
    destruct (submittedKey args') as [k'|].
    + destruct H2 as [_ ->]. reflexivity.
    + destruct H2 as [page' ->]. reflexivity.
Qed.

End Claims.

(** ** The handlers on the scripted runtime *)

(** C1 (the source departs from it).  A credential is set, the candidate's
    magnet matches the pattern, submit and inspect succeed with a video file
    and a link, and unrestrict answers without [stream_link] (absent, or
    empty): the iteration pushes nothing, the candidate is dropped without
    the peer-to-peer fallback.  The neighbouring failures do fall back: no
    video file in the listing, and a rejected unrestrict call. *)
Theorem unrestrict_without_link_drops_candidate :
  infoHashMatch sampleMagnet = Some sampleHash
  /\ @streamHandlerOn Script scripted [sampleMagnet] "movie" "tt123"
       (withKey (KStr "KEY")
          [detailsReply; submitReply; inspectReply specFiles;
           unrestrictReply None])
     = (Ok [], withKey (KStr "KEY") [])
  /\ @streamHandlerOn Script scripted [sampleMagnet] "movie" "tt123"
       (withKey (KStr "KEY")
          [detailsReply; submitReply; inspectReply specFiles;
           unrestrictReply (Some "")])
     = (Ok [], withKey (KStr "KEY") [])
  /\ @streamHandlerOn Script scripted [sampleMagnet] "movie" "tt123"
       (withKey (KStr "KEY")
          [detailsReply; submitReply; inspectReply [mkFile "a.txt" 100]])
     = (Ok [p2pStream sampleHash sampleMagnet (Some "Film")],
        withKey (KStr "KEY") [])
  /\ @streamHandlerOn Script scripted [sampleMagnet] "movie" "tt123"
       (withKey (KStr "KEY")
          [detailsReply; submitReply; inspectReply specFiles;
           Throw (Error "Request failed with status code 503")])
     = (Ok [p2pStream sampleHash sampleMagnet (Some "Film")],
        withKey (KStr "KEY") []).
Proof. repeat split; vm_compute; reflexivity. Qed.

(** C10 (the source departs from it).  A POST whose body names the field
    twice, both times empty, has no key in it; [querystring.parse] gives the
    array of the two empty strings for it, the test [if (debridApiKey)]
    lets an array through, and the handler answers "Configuration Saved!"
    and replaces the stored credential by that array, from which the stream
    handler would build the header "Bearer ,".  The same field sent once
    and empty gets the error page and leaves the credential as it was. *)
Theorem repeated_empty_field_is_stored :
  @defineConfigureHandler Script scripted
    (mkArgs "POST" (Some (BodyString "DEBRID_API_KEY=&DEBRID_API_KEY=")))
    (withKey (KStr "old") [])
  = (Ok ConfigurationSaved, withKey (KArr [""; ""]) [])
  /\ truthyStr "" = false
  /\ bearer (KArr [""; ""]) = ("Authorization", "Bearer ,")
  /\ @defineConfigureHandler Script scripted
       (mkArgs "POST" (Some (BodyString "DEBRID_API_KEY=")))
       (withKey (KStr "old") [])
     = (Ok ConfigurationError, withKey (KStr "old") []).
Proof. repeat split. Qed.

(** The unlock sequence of the specification's example: the direct stream is
    labelled with c.mp4. *)
Example unlock_labels_selected_file :
  @streamHandlerOn Script scripted [sampleMagnet] "movie" "tt123"
    (withKey (KStr "KEY")
       [detailsReply; submitReply; inspectReply specFiles;
        unrestrictReply (Some "https://dl.example/c.mp4")])
  = (Ok [mkStream (Some "https://dl.example/c.mp4") None None "[RD+] c.mp4"],
     withKey (KStr "KEY") []).
Proof. vm_compute. reflexivity. Qed.

(** Two candidates and no credential: the malformed one gives nothing, the
    valid one a single peer-to-peer stream. *)
Example malformed_then_valid :
  @streamHandlerOn Script scripted [malformedMagnet; sampleMagnet]
    "movie" "tt123" (withKey (KStr "") [detailsReply])
  = (Ok [p2pStream sampleHash sampleMagnet (Some "Film")],
     withKey (KStr "") []).
Proof. vm_compute. reflexivity. Qed.

(** C3, the claim as worded fails: the forty characters after ["btih:"] are
    no hexadecimal digits, and the candidate still gives a peer-to-peer
    stream. *)
Lemma non_hex_hash_emitted :
  spec_hexHashMatch nonHexMagnet = None
  /\ @streamHandlerOn Script scripted [nonHexMagnet] "movie" "tt123"
       (withKey (KStr "") [detailsReply])
     = (Ok [p2pStream "zzzzzzzzzzzzzzzzzzzzzzzzzzzzzzzzzzzzzzzz" nonHexMagnet
                      (Some "Film")],
        withKey (KStr "") []).
Proof. split; vm_compute; reflexivity. Qed.

Lemma p2p_requires_alnum_pattern_witness :
  @streamHandlerOn Script scripted
    ([sampleMagnet] ++ malformedMagnet :: [nonHexMagnet]) "movie" "tt123"
    (withKey (KStr "") [detailsReply])
  = @streamHandlerOn Script scripted ([sampleMagnet] ++ [nonHexMagnet])
      "movie" "tt123" (withKey (KStr "") [detailsReply]).
Proof.
  apply (proj2 (@p2p_requires_alnum_pattern Script scripted
                  [] [sampleMagnet] malformedMagnet [nonHexMagnet]
                  "movie" "tt123" (withKey (KStr "") [detailsReply]))).
  - apply search_none. vm_compute. reflexivity.
  - reflexivity.
Defined.

Lemma valid_candidate_without_key_witness :
  exists title st0 before after,
    @streamHandlerOn Script scripted
      ([malformedMagnet] ++ sampleMagnet :: [nonHexMagnet]) "movie" "tt123"
      (withKey (KStr "") [detailsReply])
    = (Ok (before ++ p2pStream sampleHash sampleMagnet title :: after)%list,
       st0)
    /\ @streamHandlerOn Script scripted [malformedMagnet] "movie" "tt123"
         (withKey (KStr "") [detailsReply])
       = (Ok before, st0)
    /\ @forBody Script scripted (KStr "") title sampleMagnet [] st0
       = (Ok [p2pStream sampleHash sampleMagnet title], st0)
    /\ @forOf Script scripted (KStr "") title [nonHexMagnet] [] st0
       = (Ok after, st0)
    /\ url (p2pStream sampleHash sampleMagnet title) = None
    /\ infoHash (p2pStream sampleHash sampleMagnet title) = Some sampleHash
    /\ sources (p2pStream sampleHash sampleMagnet title) = Some [sampleMagnet].
Proof.
  apply (@valid_candidate_without_key Script scripted
           [malformedMagnet] sampleMagnet [nonHexMagnet] sampleHash
           "movie" "tt123" (withKey (KStr "") [detailsReply])).
  - reflexivity.
  - vm_compute. reflexivity.
Defined.

Lemma title_falls_back_to_content_id_witness :
  exists st0 streams st',
    @fetchDetails Script scripted "movie" "tt123" (withKey (KStr "") [])
    = (Ok (Some "Content ID: tt123", ""), st0)
    /\ @streamHandlerOn Script scripted [sampleMagnet] "movie" "tt123"
         (withKey (KStr "") [])
       = @forOf Script scripted (KStr "") (Some "Content ID: tt123")
           [sampleMagnet] [] st0
    /\ @streamHandlerOn Script scripted [sampleMagnet] "movie" "tt123"
         (withKey (KStr "") [])
       = (Ok streams, st')
    /\ Forall (fun s => sources s = None
                        \/ title s = "[P2P] Content ID: tt123 (Torrent)")
              streams.
Proof.
  apply (@title_falls_back_to_content_id Script scripted [sampleMagnet]
           "movie" "tt123" (withKey (KStr "") [])).
  exact I.
Defined.

(** The configure handler on three requests: a submission replaces the
    credential, an empty field and a GET leave it. *)
Example configure_examples :
  @defineConfigureHandler Script scripted
    (mkArgs "POST" (Some (BodyString "DEBRID_API_KEY=abc")))
    (withKey (KStr "old") [])
  = (Ok ConfigurationSaved, withKey (KStr "abc") [])
  /\ @defineConfigureHandler Script scripted
       (mkArgs "POST" (Some (BodyString "DEBRID_API_KEY=")))
       (withKey (KStr "old") [])
     = (Ok ConfigurationError, withKey (KStr "old") [])
  /\ @defineConfigureHandler Script scripted (mkArgs "GET" None)
       (withKey (KStr "old") [])
     = (Ok ConfigureForm, withKey (KStr "old") []).
Proof. repeat split. Qed.

(** * Further properties of the source *)

(** ** Percent-encoding *)

Lemma all_append p a b : Str.all p (a ++ b) = Str.all p a && Str.all p b.
Proof.
  induction a as [|c a IH]; cbn; [reflexivity|].
  now rewrite IH, andb_assoc.
Qed.

Lemma all_occurs p c s : Str.all p s = true -> p c = false -> occurs c s = false.
Proof.
  intros Ha Hc. induction s as [|x s IH]; cbn in *; [reflexivity|].
  apply andb_true_iff in Ha as [Hx Hs].
  destruct (Ascii.eqb_spec x c) as [->|_]; [congruence | now apply IH].
Qed.

Lemma percent_alphabet c :
  Str.all (fun x => Str.unreserved x || Ascii.eqb x "%") (Str.percent c) = true.
Proof. destruct c as [[] [] [] [] [] [] [] []]; reflexivity. Qed.

Lemma encode_alphabet s :
  Str.all (fun x => Str.unreserved x || Ascii.eqb x "%")
          (Str.encodeURIComponent s) = true.
Proof.
  induction s as [|c s IH]; cbn [Str.encodeURIComponent]; [reflexivity|].
  rewrite all_append, IH, andb_true_r.
  destruct (Str.unreserved c) eqn:Hc.
  - cbn. now rewrite Hc.
  - apply percent_alphabet.
Qed.

(** X1.  The body of the submit call is the one field [magnet]: the
    encoded magnet is made of unreserved characters and of [%] followed by
    hexadecimal digits, so no [&] starts a second field and no [=] a second
    value; the same holds for the [link] body of the unrestrict call. *)
Theorem request_bodies_have_one_field (s : string) :
  Str.all (fun x => Str.unreserved x || Ascii.eqb x "%")
          (Str.encodeURIComponent s) = true
  /\ occurs "=" (Str.encodeURIComponent s) = false
  /\ occurs "&" ("magnet=" ++ Str.encodeURIComponent s) = false
  /\ occurs "&" ("link=" ++ Str.encodeURIComponent s) = false.
Proof.
  assert (forall c, Str.unreserved c || Ascii.eqb c "%" = false ->
                    occurs c (Str.encodeURIComponent s) = false) as H
    by (intros c Hc; exact (all_occurs _ c _ (encode_alphabet s) Hc)).
  repeat split.
  - apply encode_alphabet.
  - now apply H.
  - cbn. now apply H.
  - cbn. now apply H.
Qed.

Lemma hexValue_hexDigit n : n < 16 -> hexValue (Str.hexDigit n) = n.
Proof.
  intros H. do 16 (destruct n as [|n]; [reflexivity|]). lia.
Qed.

Lemma hex_pair_inj c c' :
  Str.hexDigit (Str.code c / 16) = Str.hexDigit (Str.code c' / 16) ->
  Str.hexDigit (Str.code c mod 16) = Str.hexDigit (Str.code c' mod 16) ->
  c = c'.
Proof.
  intros Hh Hl.
  assert (Str.code c < 256) as Hc by apply nat_ascii_bounded.
  assert (Str.code c' < 256) as Hc' by apply nat_ascii_bounded.
  apply (f_equal hexValue) in Hh, Hl.
  rewrite !hexValue_hexDigit in Hh, Hl
    by (try apply Nat.mod_upper_bound; try apply Nat.Div0.div_lt_upper_bound;
        lia).
  rewrite <- (ascii_nat_embedding c), <- (ascii_nat_embedding c').
  f_equal. fold (Str.code c) (Str.code c').
  rewrite (Nat.div_mod_eq (Str.code c) 16), (Nat.div_mod_eq (Str.code c') 16).
  now rewrite Hh, Hl.
Qed.

Lemma three_append_inj a1 a2 a3 b1 b2 b3 x y :
  String a1 (String a2 (String a3 "")) ++ x
  = String b1 (String b2 (String b3 "")) ++ y ->
  a2 = b2 /\ a3 = b3 /\ x = y.
Proof. cbn. intros [= _ -> -> ->]. auto. Qed.

Lemma percent_append_inj c c' x y :
  Str.percent c ++ x = Str.percent c' ++ y -> c = c' /\ x = y.
Proof.
  intros H. apply three_append_inj in H as [Hh [Hl Hr]].
  split; [now apply hex_pair_inj | assumption].
Qed.

Lemma encode_injective (a b : string) :
  Str.encodeURIComponent a = Str.encodeURIComponent b -> a = b.
Proof.
  revert b. induction a as [|c a IH]; intros [|c' b] H.
  - reflexivity.
  - cbn in H. unfold Str.percent in H.
    destruct (Str.unreserved c'); discriminate.
  - cbn in H. unfold Str.percent in H.
    destruct (Str.unreserved c); discriminate.
  - cbn [Str.encodeURIComponent] in H.
    destruct (Str.unreserved c) eqn:Hc, (Str.unreserved c') eqn:Hc'.
    + injection H as -> H. f_equal. now apply IH.
    + unfold Str.percent in H. injection H as -> _. discriminate.
    + unfold Str.percent in H. injection H as <- _. discriminate.
    + apply percent_append_inj in H as [-> Hr]. f_equal. now apply IH.
Qed.

(** X2.  The submit body determines the magnet: two candidates with the
    same body are the same candidate. *)
Theorem submit_body_determines_magnet (a b : string)
  (H : "magnet=" ++ Str.encodeURIComponent a
       = "magnet=" ++ Str.encodeURIComponent b) : a = b.
Proof.
  apply encode_injective. cbn in H. now injection H.
Qed.

Lemma submit_body_determines_magnet_witness : sampleMagnet = sampleMagnet.
Proof.
  apply (submit_body_determines_magnet sampleMagnet sampleMagnet).
  reflexivity.
Defined.

(** ** Base names *)

Lemma split_append_slash a b :
  Str.split "/" (a ++ "/" ++ b) = (Str.split "/" a ++ Str.split "/" b)%list.
Proof.
  induction a as [|c a IH].
  - reflexivity.
  - change (String c a ++ "/" ++ b) with (String c (a ++ "/" ++ b)).
    cbn [Str.split]. rewrite IH.
    destruct (Ascii.eqb c "/"); [reflexivity|].
    destruct (Str.split "/" a) as [|h t] eqn:E.
    + now destruct (split_nonempty a).
    + reflexivity.
Qed.

Lemma split_noslash_one s : hasSlash s = false -> Str.split "/" s = [s].
Proof.
  induction s as [|c s IH]; cbn; [reflexivity|].
  intros H. apply orb_false_iff in H as [Hc Hs].
  now rewrite Hc, (IH Hs).
Qed.

(** X3.  The label of a direct stream is the part of the path after its
    last slash: a name without slash is recovered from any directory it is
    put in, and is its own base name. *)
Theorem baseName_of_joined_path (dir name : string)
  (Hname : hasSlash name = false) :
  baseName (dir ++ "/" ++ name) = name /\ baseName name = name.
Proof.
  unfold baseName, Str.pop. split.
  - rewrite split_append_slash, (split_noslash_one _ Hname).
    apply last_last.
  - now rewrite (split_noslash_one _ Hname).
Qed.

Lemma baseName_of_joined_path_witness :
  baseName ("Season 1/Episode 2" ++ "/" ++ "c.mp4") = "c.mp4"
  /\ baseName "c.mp4" = "c.mp4".
Proof.
  apply (baseName_of_joined_path "Season 1/Episode 2" "c.mp4"). reflexivity.
Defined.

(** ** The hash of a magnet *)

Lemma search_skip cls c s :
  c <> "b"%char -> search cls (String c s) = search cls s.
Proof.
  intros Hc. rewrite search_unfold. unfold matchHere.
  cbn [Str.startsWith].
  destruct (Ascii.eqb_spec "b" c) as [E|_]; [now destruct Hc|].
  reflexivity.
Qed.

(** X4.  A magnet of the usual form gives its hash: after
    ["magnet:?xt=urn:btih:"] the forty characters are returned as they are
    written (upper and lower case kept), whatever follows them, be it more
    letters and digits. *)
Theorem infoHashMatch_of_magnet (h rest : string)
  (Hlen : String.length h = 40) (Hcls : Str.all Str.isAlnum h = true) :
  infoHashMatch ("magnet:?xt=urn:btih:" ++ h ++ rest) = Some h.
Proof.
  unfold infoHashMatch. cbn [append].
  do 15 (rewrite search_skip by discriminate).
  rewrite search_unfold.
  assert (E := matchHere_complete Str.isAlnum h rest Hlen Hcls).
  cbn [append] in E. now rewrite E.
Qed.

Lemma infoHashMatch_of_magnet_witness :
  infoHashMatch ("magnet:?xt=urn:btih:" ++ sampleHash ++ "0123&dn=Film")
  = Some sampleHash.
Proof.
  apply (infoHashMatch_of_magnet sampleHash "0123&dn=Film"); reflexivity.
Defined.

(** X5.  A magnet of fewer than 45 characters has no hash: there is no room
    for ["btih:"] and forty characters. *)
Theorem infoHashMatch_short_magnet (magnet : string)
  (Hshort : String.length magnet < 45) :
  infoHashMatch magnet = None.
Proof.
  destruct (infoHashMatch magnet) as [h|] eqn:E; [|reflexivity].
  apply search_sound in E as [pre [post [-> [Hl _]]]].
  rewrite !length_append, Hl in Hshort. cbn in Hshort. lia.
Qed.

Lemma infoHashMatch_short_magnet_witness :
  infoHashMatch malformedMagnet = None.
Proof.
  apply (infoHashMatch_short_magnet malformedMagnet). cbn. lia.
Defined.

(** ** More on the file selection *)

Lemma reducer_skips acc f : isVideo (path f) = false -> reducer acc f = acc.
Proof. intros H. unfold reducer. now rewrite H. Qed.

(** X6.  Entries that are no video files have no part in the selection: it
    is the selection over the video entries alone. *)
Theorem mainFile_ignores_other_files (files : list FileEntry) :
  mainFile files = mainFile (filter (fun f => isVideo (path f)) files).
Proof.
  unfold mainFile. generalize (@None FileEntry) as acc.
  induction files as [|f files IH]; intros acc; cbn [fold_left filter].
  - reflexivity.
  - destruct (isVideo (path f)) eqn:Hv.
    + cbn [fold_left]. apply IH.
    + rewrite (reducer_skips _ _ Hv). apply IH.
Qed.

(** X7.  The selection is [null] exactly when no entry of the listing is a
    video file, the empty listing included. *)
Theorem mainFile_null_without_video (files : list FileEntry) :
  match mainFile files with
  | Some _ => false
  | None => true
  end
  = forallb (fun f => negb (isVideo (path f))) files.
Proof.
  destruct (mainFile files) as [f|] eqn:E.
  - symmetry. apply not_true_is_false. intros H.
    rewrite forallb_forall in H.
    destruct (mainFile_some files f E) as [b [a [-> [V _]]]].
    apply isVideo_iff in V.
    specialize (H f (in_elt f b a)). rewrite V in H. discriminate.
  - symmetry. apply forallb_forall. intros g Hg.
    now rewrite (mainFile_none files E g Hg).
Qed.

(** ** Genre names *)

Lemma property_in table id v : property table id = Some v -> In (id, v) table.
Proof.
  induction table as [|[k w] table IH]; cbn; [discriminate|].
  destruct (Z.eqb_spec k id) as [->|_].
  - intros [= ->]. now left.
  - intros H. right. now apply IH.
Qed.

Lemma property_none table id :
  property table id = None
  <-> existsb (Z.eqb id) (map fst table) = false.
Proof.
  induction table as [|[k w] table IH]; cbn; [tauto|].
  rewrite (Z.eqb_sym id k). destruct (k =? id)%Z; cbn; [|exact IH].
  split; discriminate.
Qed.

Lemma values_distinct (table : list (Z * string)) a b v :
  NoDup (map snd table) -> In (a, v) table -> In (b, v) table -> a = b.
Proof.
  induction table as [|[k w] table IH]; cbn; [tauto|].
  intros Hnd [Ha|Ha] [Hb|Hb]; inversion Hnd as [|? ? Hnot Hnd']; subst.
  - congruence.
  - injection Ha as -> ->. destruct Hnot. now apply (in_map snd _ (b, v)).
  - injection Hb as -> ->. destruct Hnot. now apply (in_map snd _ (a, v)).
  - now apply IH.
Qed.

Lemma genres_named :
  Forall (fun kv => truthyStr (snd kv) = true
                    /\ String.eqb (snd kv) "Unknown" = false) genres.
Proof. repeat constructor. Qed.

Lemma genres_distinct : NoDup (map snd genres).
Proof.
  cbn. repeat (constructor; [cbn; intuition discriminate|]). constructor.
Qed.

Lemma getGenreName_known id name :
  property genres id = Some name -> getGenreName id = name.
Proof.
  intros H. unfold getGenreName. rewrite H.
  apply property_in in H.
  destruct (proj1 (Forall_forall _ _) genres_named _ H) as [Ht _].
  cbn in Ht. now rewrite Ht.
Qed.

(** X8.  The name is ["Unknown"] exactly for the codes that are no key of
    the table; no key of the table is named so. *)
Theorem getGenreName_unknown_codes (id : Z) :
  String.eqb (getGenreName id) "Unknown"
  = negb (existsb (Z.eqb id) (map fst genres)).
Proof.
  destruct (property genres id) as [name|] eqn:E.
  - rewrite (getGenreName_known _ _ E).
    destruct (existsb (Z.eqb id) (map fst genres)) eqn:Ex.
    + apply property_in in E.
      now destruct (proj1 (Forall_forall _ _) genres_named _ E) as [_ Hu].
    + apply property_none in Ex. congruence.
  - unfold getGenreName. rewrite E.
    apply property_none in E. now rewrite E.
Qed.

(** X9.  Two codes with the same name, other than ["Unknown"], are the
    same code. *)
Theorem getGenreName_distinct_names (a b : Z)
  (Hsame : getGenreName a = getGenreName b)
  (Hknown : getGenreName a <> "Unknown") : a = b.
Proof.
  destruct (property genres a) as [na|] eqn:Ea;
    [|now unfold getGenreName in Hknown; rewrite Ea in Hknown].
  destruct (property genres b) as [nb|] eqn:Eb.
  - rewrite (getGenreName_known _ _ Ea), (getGenreName_known _ _ Eb) in Hsame.
    subst nb. apply property_in in Ea, Eb.
    exact (values_distinct genres a b na genres_distinct Ea Eb).
  - rewrite Hsame in Hknown. unfold getGenreName in Hknown.
    now rewrite Eb in Hknown.
Qed.

Lemma getGenreName_distinct_names_witness : 10751%Z = 10751%Z.
Proof.
  apply (getGenreName_distinct_names 10751 10751); [reflexivity|].
  discriminate.
Defined.

(** ** The catalog handler *)

Lemma substring_all n s : String.length s <= n -> substring 0 n s = s.
Proof.
  revert n. induction s as [|c s IH]; intros n H.
  - now destruct n.
  - destruct n as [|n]; cbn in *; [lia|]. rewrite IH; [reflexivity | lia].
Qed.

Lemma contentId_strips x : contentId ("tt" ++ x) = x.
Proof.
  unfold contentId. cbn. apply substring_all. lia.
Qed.

Section CatalogFacts.

Context {World : Type} {RT : Runtime World} {CC : CatalogClient World}.

(** X10.  For a type and id that are not one of the two catalogs the
    handler rejects with the error "Unsupported catalog type or ID" and calls
    nothing.  Otherwise it makes one call, for the page of the requested
    offset, and resolves to the items of the answer, mapped in order; when
    the call rejects, or answers without data or without results, the handler
    rejects with the one error "Could not fetch catalog from TMDB. ...",
    whatever the cause was. *)
Theorem catalog_outcomes (type id : string) (extra : option Extra)
  (st : Store World) :
  match discoverUrl type id with
  | None =>
      defineCatalogHandler type id extra st = (Throw unsupportedCatalog, st)
  | Some tmdbUrl0 =>
      let (r, w) :=
        axios_get_results (tmdbUrl0 ++ "&page=" ++ showNum (pageOf extra))
                          (world st) in
      defineCatalogHandler type id extra st
      = (match resultsOf r with
         | Some items => Ok (map (toMeta type) items)
         | None => Throw catalogFailure
         end,
         mkStore (GLOBAL_DEBRID_API_KEY st) w)
  end.
Proof.
  unfold defineCatalogHandler, adopt, try_catch, bind, ret, throw.
  destruct (discoverUrl type id) as [u|]; [|reflexivity].
  unfold fetchCatalog, bind, await, ret, throw, resultsOf.
  destruct (axios_get_results (u ++ "&page=" ++ showNum (pageOf extra))
                              (world st)) as [[resp|e] w]; [|reflexivity].
  destruct (c_data resp) as [d|]; [|reflexivity].
  destruct (c_results d) as [items|]; reflexivity.
Qed.

(** X11.  The handler serves exactly the catalogs the manifest declares:
    a pair of type and id has a discover URL if and only if it is in the
    [catalogs] list. *)
Theorem catalogs_match_manifest (type id : string) :
  match discoverUrl type id with
  | Some _ => true
  | None => false
  end
  = existsb (fun c => String.eqb (fst c) type && String.eqb (snd c) id)
            manifestCatalogs.
Proof.
  unfold discoverUrl, manifestCatalogs. cbn [existsb fst snd].
  rewrite (String.eqb_sym type "movie"), (String.eqb_sym type "series"),
    (String.eqb_sym id "arabic_movies_latest"),
    (String.eqb_sym id "arabic_series_latest").
  destruct (String.eqb "movie" type && String.eqb "arabic_movies_latest" id);
    [reflexivity|].
  destruct (String.eqb "series" type && String.eqb "arabic_series_latest" id);
    reflexivity.
Qed.

(** X12.  The id of a catalog entry starts with the prefix the manifest
    declares, and the stream handler, given that id, asks for the details of
    the very item the entry was made from: [contentId] gives back the
    item's own id. *)
Theorem catalog_id_reaches_item (type type' : string) (item : Item) :
  existsb (Str.startsWith (meta_id (toMeta type item))) idPrefixes = true
  /\ meta_type (toMeta type item) = type
  /\ contentId (meta_id (toMeta type item)) = rawId item
  /\ tmdbDetailsUrl type' (meta_id (toMeta type item))
     = "https://api.themoviedb.org/3/"
       ++ (if String.eqb type' "movie" then "movie" else "tv")
       ++ "/" ++ rawId item ++ "?api_key=" ++ showOpt TMDB_API_KEY
       ++ "&language=ar-AE".
Proof.
  assert (contentId (meta_id (toMeta type item)) = rawId item) as E
    by apply contentId_strips.
  repeat split; try assumption.
  unfold tmdbDetailsUrl. now rewrite E.
Qed.

End CatalogFacts.

(** X13.  For a [skip] that is a safe integer the page asked for is the
    one that holds the offset [skip], pages being twenty long and numbered
    from 1, and the page number is a safe integer too; without [extra], or
    without [skip], the page is the first. *)
Theorem pageOf_holds_offset (k : SafeInt) :
  (20 * (pageOf (Some (mkExtra (Some k))) - 1) <= value k
   < 20 * pageOf (Some (mkExtra (Some k))))%Z
  /\ (Z.abs (pageOf (Some (mkExtra (Some k)))) < 2 ^ 53)%Z
  /\ pageOf None = 1%Z
  /\ pageOf (Some (mkExtra None)) = 1%Z.
Proof.
  destruct k as [k Hk].
  assert (Z.abs k < 9007199254740992)%Z as Hb
    by (destruct (Z.ltb_spec (Z.abs k) (2 ^ 53)); [assumption | discriminate]).
  change (2 ^ 53)%Z with 9007199254740992%Z.
  cbn [pageOf skip value].
  pose proof (Z.div_mod k 20 ltac:(lia)).
  pose proof (Z.mod_pos_bound k 20 ltac:(lia)).
  destruct (Z.eqb_spec k 0) as [->|Hz]; repeat split; lia.
Qed.

(** ** The calls the stream handler makes *)

(** Case analysis on an innermost scrutinee of the goal. *)
Ltac walk_match :=
  match goal with
  | |- context [match ?x with _ => _ end] =>
      lazymatch x with
      | context [match _ with _ => _ end] => fail
      | _ => destruct x eqn:?
      end
  end; cbv beta iota; cbn [fst snd world GLOBAL_DEBRID_API_KEY].

Ltac walk_handler :=
  unfold bind, await, dataOf, ret, throw, try_catch; cbv beta iota;
  cbn [axios_get axios_post recording fst snd world GLOBAL_DEBRID_API_KEY];
  repeat walk_match; subst.

Section Requests.

Context {World : Type} (RT : Runtime World).

Lemma unlockCall_submit key m :
  unlockCall key (Post (debridServiceEndpoint ++ "/torrents/addMagnet")
                       ("magnet=" ++ Str.encodeURIComponent m)
                       [bearer key; formType]).
Proof. split; [now eexists | now left]. Qed.

Lemma unlockCall_inspect key job :
  unlockCall key (Get (debridServiceEndpoint ++ "/torrents/info/" ++ job)
                      [bearer key]).
Proof. split; [now eexists | now left]. Qed.

Lemma unlockCall_unrestrict key l :
  unlockCall key (Post (debridServiceEndpoint ++ "/unrestrict/link")
                       ("link=" ++ Str.encodeURIComponent l)
                       [bearer key; formType]).
Proof. split; [now eexists | now left]. Qed.

Lemma forBody_recorded key title m streams
  (st : Store (World * list Request)) :
  exists out st' new,
    @forBody _ (recording RT) key title m streams st = (Ok out, st')
    /\ requests st' = (requests st ++ new)%list
    /\ length new <= 3
    /\ Forall (unlockCall key) new
    /\ (truthyKey key = false -> new = [])
    /\ GLOBAL_DEBRID_API_KEY st' = GLOBAL_DEBRID_API_KEY st.
Proof.
  unfold forBody. destruct (truthyKey key) eqn:Hk.
  - unfold unlock. walk_handler.
    all: eexists; eexists; eexists; (split; [reflexivity|]).
    all: unfold requests; cbn [world snd].
    all: (split; [rewrite <- ?app_assoc; reflexivity|]).
    all: (split; [cbn; lia|]).
    all: (split; [|split; [discriminate | reflexivity]]).
    all: cbn [app];
      repeat (constructor;
              [first [apply unlockCall_submit | apply unlockCall_inspect
                     | apply unlockCall_unrestrict]|]);
      constructor.
  - walk_handler. exists (pushP2P title m streams), st, [].
    unfold requests. rewrite app_nil_r. repeat split; auto.
Qed.

Lemma forOf_recorded key title magnets streams
  (st : Store (World * list Request)) :
  exists out st' new,
    @forOf _ (recording RT) key title magnets streams st = (Ok out, st')
    /\ requests st' = (requests st ++ new)%list
    /\ length new <= 3 * length magnets
    /\ Forall (unlockCall key) new
    /\ (truthyKey key = false -> new = [])
    /\ GLOBAL_DEBRID_API_KEY st' = GLOBAL_DEBRID_API_KEY st.
Proof.
  revert streams st. induction magnets as [|m rest IH]; intros streams st.
  - exists streams, st, []. rewrite app_nil_r. repeat split; auto.
  - destruct (forBody_recorded key title m streams st)
      as [s1 [st1 [n1 [E1 [R1 [L1 [A1 [N1 K1]]]]]]]].
    destruct (IH s1 st1) as [s2 [st2 [n2 [E2 [R2 [L2 [A2 [N2 K2]]]]]]]].
    exists s2, st2, (n1 ++ n2)%list. cbn [forOf]. unfold bind.
    rewrite E1, E2, R2, R1, <- app_assoc, length_app. repeat split.
    + cbn [length]. lia.
    + apply Forall_app. now split.
    + intros Hk. now rewrite (N1 Hk), (N2 Hk).
    + congruence.
Qed.

Lemma fetchDetails_recorded type id (st : Store (World * list Request)) :
  exists details st',
    @fetchDetails _ (recording RT) type id st = (Ok details, st')
    /\ requests st'
       = (requests st ++ [Get (@tmdbDetailsUrl _ RT type id) []])%list
    /\ GLOBAL_DEBRID_API_KEY st' = GLOBAL_DEBRID_API_KEY st.
Proof.
  unfold fetchDetails. walk_handler;
    eexists; eexists; (split; [reflexivity|]); split; reflexivity.
Qed.

(** X14.  Whatever the services answer, the handler first asks TMDB for the
    details, without any header, and then only calls the unlock service:
    at most three calls for each candidate, each carrying the stored
    credential as its [Authorization] bearer.  The credential is never sent
    to TMDB. *)
Theorem stream_handler_calls (magnets : list string) (type id : string)
  (st : Store (World * list Request)) :
  exists streams st' new,
    @streamHandlerOn _ (recording RT) magnets type id st = (Ok streams, st')
    /\ requests st'
       = (requests st ++ Get (@tmdbDetailsUrl _ RT type id) [] :: new)%list
    /\ length new <= 3 * length magnets
    /\ Forall (unlockCall (GLOBAL_DEBRID_API_KEY st)) new.
Proof.
  destruct (fetchDetails_recorded type id st) as [details [st0 [E0 [R0 K0]]]].
  destruct (forOf_recorded (GLOBAL_DEBRID_API_KEY st) (fst details)
                           magnets [] st0)
    as [out [st' [new [E [R [L [A _]]]]]]].
  exists out, st', new. unfold streamHandlerOn, bind, readKey.
  rewrite E0, E, R, R0, <- app_assoc. auto.
Qed.

(** X15.  With no credential stored the details lookup is the only call:
    no candidate is sent to any service. *)
Theorem no_credential_single_call (magnets : list string) (type id : string)
  (st : Store (World * list Request))
  (Hkey : truthyKey (GLOBAL_DEBRID_API_KEY st) = false) :
  exists streams st',
    @streamHandlerOn _ (recording RT) magnets type id st = (Ok streams, st')
    /\ requests st'
       = (requests st ++ [Get (@tmdbDetailsUrl _ RT type id) []])%list.
Proof.
  destruct (fetchDetails_recorded type id st) as [details [st0 [E0 [R0 K0]]]].
  destruct (forOf_recorded (GLOBAL_DEBRID_API_KEY st) (fst details)
                           magnets [] st0)
    as [out [st' [new [E [R [_ [_ [N _]]]]]]]].
  exists out, st'. unfold streamHandlerOn, bind, readKey.
  rewrite E0, E, R, R0, (N Hkey), app_nil_r. auto.
Qed.

(** X16.  A credential accepted by the configure handler is the one the
    next stream request presents: every call it makes to the unlock service
    carries that value as bearer. *)
Theorem configured_key_is_presented (args : Args) (k : KeyValue)
  (magnets : list string) (type id : string)
  (st : Store (World * list Request))
  (Hsub : @submittedKey _ (recording RT) args = Some k) :
  exists streams st' new,
    bind (@defineConfigureHandler _ (recording RT) args)
         (fun _ => @streamHandlerOn _ (recording RT) magnets type id) st
    = (Ok streams, st')
    /\ GLOBAL_DEBRID_API_KEY st' = k
    /\ requests st'
       = (requests st ++ Get (@tmdbDetailsUrl _ RT type id) [] :: new)%list
    /\ Forall (unlockCall k) new.
Proof.
  assert (@defineConfigureHandler _ (recording RT) args st
          = (Ok ConfigurationSaved, mkStore k (world st))) as Ec.
  { unfold submittedKey in Hsub. unfold defineConfigureHandler.
    destruct (String.eqb (method args) "POST"); [|discriminate].
    destruct (truthyBody (body args)); [|discriminate]. cbn [andb].
    destruct (querystring_parse (bodyToString (body args)) "DEBRID_API_KEY")
      as [k'|]; [|discriminate].
    destruct (truthyKey k') eqn:Hk; [|discriminate].
    injection Hsub as ->. reflexivity. }
  destruct (fetchDetails_recorded type id (mkStore k (world st)))
    as [details [st0 [E0 [R0 K0]]]].
  destruct (forOf_recorded k (fst details) magnets [] st0)
    as [out [st' [new [E [R [_ [A [_ K]]]]]]]].
  exists out, st', new. unfold bind at 1. rewrite Ec.
  unfold streamHandlerOn, bind, readKey. cbn [GLOBAL_DEBRID_API_KEY].
  rewrite E0, E, R, R0, <- app_assoc. repeat split; auto.
  now rewrite K, K0.
Qed.

(** Recording the calls does not change the run: without the record, the
    run on [recording RT] is the run on [RT]. *)
Lemma forBody_played key title m streams st :
  (let (r, st') := @forBody _ (recording RT) key title m streams st in
   (r, played st'))
  = @forBody _ RT key title m streams (played st).
Proof.
  unfold forBody. destruct (truthyKey key); [|reflexivity].
  unfold unlock, played. walk_handler; reflexivity.
Qed.

Lemma forOf_played key title magnets streams st :
  (let (r, st') := @forOf _ (recording RT) key title magnets streams st in
   (r, played st'))
  = @forOf _ RT key title magnets streams (played st).
Proof.
  revert streams st. induction magnets as [|m rest IH]; intros streams st.
  - reflexivity.
  - cbn [forOf]. unfold bind.
    rewrite <- (forBody_played key title m streams st).
    destruct (@forBody _ (recording RT) key title m streams st)
      as [[s1|e] st1]; [apply IH | reflexivity].
Qed.

Lemma streamHandlerOn_played magnets type id st :
  (let (r, st') := @streamHandlerOn _ (recording RT) magnets type id st in
   (r, played st'))
  = @streamHandlerOn _ RT magnets type id (played st).
Proof.
  unfold streamHandlerOn, bind, readKey.
  assert ((let (r, st') := @fetchDetails _ (recording RT) type id st in
           (r, played st'))
          = @fetchDetails _ RT type id (played st)) as Ed.
  { unfold fetchDetails, played.
    change (@tmdbDetailsUrl _ (recording RT) type id)
      with (@tmdbDetailsUrl _ RT type id).
    walk_handler; reflexivity. }
  rewrite <- Ed.
  destruct (@fetchDetails _ (recording RT) type id st) as [[details|e] st0];
    [|reflexivity].
  apply forOf_played.
Qed.

End Requests.

(** ** When a candidate is unlocked *)

Section Unlock.

Context {World : Type} {RT : Runtime World}.

(** X17.  When the three calls succeed the candidate gives the direct
    stream, with the answered link as url and the base name of the selected
    file as label, and nothing else: no peer-to-peer stream is added for it,
    whatever its hash. *)
Theorem unlock_success_gives_direct (key : KeyValue) (title : option string)
  (m : string) (streams : list Stream) (st : Store World) (link : string)
  (main : FileEntry) (st' : Store World)
  (Hkey : truthyKey key = true)
  (Hunlock : UnlockSucceeds key m st link main st') :
  forBody key title m streams st
  = (Ok (streams ++ [directStream link main])%list, st').
Proof.
  destruct Hunlock
    as [r1 [d1 [w1 [r2 [d2 [w2 [files [link0 [links [r3 [d3
        [E1 [D1 [E2 [D2 [F [Mf [L [E3 [D3 [S [T K]]]]]]]]]]]]]]]]]]]]]].
  unfold forBody, unlock, try_catch, bind, await, dataOf, ret, throw.
  rewrite Hkey, E1, D1. cbn [world]. rewrite E2, D2, F, Mf, L.
  cbn [world]. rewrite E3, D3, S, T. cbn [GLOBAL_DEBRID_API_KEY].
  destruct st' as [k' w']. cbn in K. now rewrite K.
Qed.

(** X18.  A direct stream is only ever added after the three calls have
    succeeded: its url is the link the unrestrict call answered for the
    first link of the inspected job, and its label names the file the
    selection chose in that job's listing. *)
Theorem direct_stream_needs_unlock (key : KeyValue) (title : option string)
  (m : string) (st : Store World) (s : Stream) (link : string)
  (st' : Store World)
  (Hrun : forBody key title m [] st = (Ok [s], st'))
  (Hurl : url s = Some link) :
  exists main,
    truthyKey key = true
    /\ UnlockSucceeds key m st link main st'
    /\ s = directStream link main.
Proof.
  assert (forall t c, pushP2P t c [] = [s] -> False) as Hp2p.
  { intros t c. unfold pushP2P.
    destruct (infoHashMatch c) as [h|]; [|discriminate].
    destruct (truthyStr h); [|discriminate].
    intros [= <-]. discriminate. }
  revert Hrun. unfold forBody. destruct (truthyKey key) eqn:Hk.
  - unfold unlock. walk_handler; intros [= Hs Hst];
      try (now destruct (Hp2p title m)).
    cbn [app] in Hs. subst s. cbn in Hurl. injection Hurl as ->.
    eexists. split; [reflexivity|]. split; [|reflexivity].
    unfold UnlockSucceeds. do 11 eexists.
    subst st'. cbn [world GLOBAL_DEBRID_API_KEY].
    repeat split; eassumption.
  - unfold ret. intros [= Hs _]. now destruct (Hp2p title m).
Qed.

End Unlock.

(** ** The further properties on the scripted runtime *)

Lemma no_credential_single_call_witness :
  exists streams st',
    @streamHandlerOn _ (recording scripted)
      [sampleMagnet; malformedMagnet] "movie" "tt123"
      (mkStore (KStr "") ([detailsReply], []))
    = (Ok streams, st')
    /\ requests st'
       = ([] ++ [Get (@tmdbDetailsUrl _ scripted "movie" "tt123") []])%list.
Proof.
  apply (no_credential_single_call scripted [sampleMagnet; malformedMagnet]
           "movie" "tt123" (mkStore (KStr "") ([detailsReply], []))).
  reflexivity.
Defined.

Lemma configured_key_is_presented_witness :
  exists streams st' new,
    bind (@defineConfigureHandler _ (recording scripted)
            (mkArgs "POST" (Some (BodyString "DEBRID_API_KEY=abc"))))
         (fun _ => @streamHandlerOn _ (recording scripted)
                     [sampleMagnet] "movie" "tt123")
         (mkStore (KStr "old") ([detailsReply; submitReply], []))
    = (Ok streams, st')
    /\ GLOBAL_DEBRID_API_KEY st' = KStr "abc"
    /\ requests st'
       = ([] ++ Get (@tmdbDetailsUrl _ scripted "movie" "tt123") []
             :: new)%list
    /\ Forall (unlockCall (KStr "abc")) new.
Proof.
  apply (configured_key_is_presented scripted
           (mkArgs "POST" (Some (BodyString "DEBRID_API_KEY=abc")))
           (KStr "abc") [sampleMagnet] "movie" "tt123"
           (mkStore (KStr "old") ([detailsReply; submitReply], []))).
  reflexivity.
Defined.

Lemma sample_unlock_succeeds :
  @UnlockSucceeds _ scripted (KStr "KEY") sampleMagnet
    (withKey (KStr "KEY")
       [submitReply; inspectReply specFiles;
        unrestrictReply (Some "https://dl.example/c.mp4")])
    "https://dl.example/c.mp4" (mkFile "c.mp4" 200)
    (withKey (KStr "KEY") []).
Proof.
  unfold UnlockSucceeds.
  exists (mkResponse (Some (mkData (Some "JOB1") None None None None None
                                   None None))).
  do 10 eexists. repeat split; reflexivity.
Qed.

Lemma unlock_success_gives_direct_witness :
  @forBody _ scripted (KStr "KEY") (Some "Film") sampleMagnet []
    (withKey (KStr "KEY")
       [submitReply; inspectReply specFiles;
        unrestrictReply (Some "https://dl.example/c.mp4")])
  = (Ok ([] ++ [directStream "https://dl.example/c.mp4" (mkFile "c.mp4" 200)])%list,
     withKey (KStr "KEY") []).
Proof.
  apply (@unlock_success_gives_direct _ scripted (KStr "KEY") (Some "Film")
           sampleMagnet []).
  - reflexivity.
  - exact sample_unlock_succeeds.
Defined.

Lemma direct_stream_needs_unlock_witness :
  exists main,
    truthyKey (KStr "KEY") = true
    /\ @UnlockSucceeds _ scripted (KStr "KEY") sampleMagnet
         (withKey (KStr "KEY")
            [submitReply; inspectReply specFiles;
             unrestrictReply (Some "https://dl.example/c.mp4")])
         "https://dl.example/c.mp4" main (withKey (KStr "KEY") [])
    /\ mkStream (Some "https://dl.example/c.mp4") None None "[RD+] c.mp4"
       = directStream "https://dl.example/c.mp4" main.
Proof.
  apply (@direct_stream_needs_unlock _ scripted (KStr "KEY") (Some "Film")
           sampleMagnet).
  - reflexivity.
  - reflexivity.
Defined.

(** The catalog handler on the example services. *)
Example catalog_examples :
  @defineCatalogHandler _ scripted fixedCatalog "movie" "arabic_movies_latest"
    (Some (mkExtra (Some (mkSafe 40 eq_refl)))) (withKey (KStr "") [])
  = (Ok [toMeta "movie" sampleItem], withKey (KStr "") [])
  /\ meta_id (toMeta "movie" sampleItem) = "tt550"
  /\ meta_genres (toMeta "movie" sampleItem) = ["Action"; "Unknown"; "Drama"]
  /\ @defineCatalogHandler _ scripted downCatalog "series"
       "arabic_series_latest" None (withKey (KStr "") [])
     = (Throw catalogFailure, withKey (KStr "") [])
  /\ @defineCatalogHandler _ scripted fixedCatalog "movie"
       "arabic_series_latest" None (withKey (KStr "") [])
     = (Throw unsupportedCatalog, withKey (KStr "") []).
Proof. repeat split. Qed.

(** ** Candidates without a credential *)

(** X19.  With no credential the candidates are handled one by one and
    independently: the output for two lists put end to end is the output
    for the first followed by the output for the second, so a candidate
    listed twice gives its stream twice. *)
Theorem no_credential_output_concatenates {World : Type} {RT : Runtime World}
  (l1 l2 : list string) (type id : string) (st : Store World)
  (Hkey : truthyKey (GLOBAL_DEBRID_API_KEY st) = false) :
  exists st0 o1 o2,
    streamHandlerOn (l1 ++ l2) type id st = (Ok (o1 ++ o2)%list, st0)
    /\ streamHandlerOn l1 type id st = (Ok o1, st0)
    /\ streamHandlerOn l2 type id st = (Ok o2, st0).
Proof.
  destruct (handler_nokey type id st Hkey) as [details [st0 [_ R]]].
  exists st0, (flat_map (fun m => pushP2P (fst details) m []) l1),
    (flat_map (fun m => pushP2P (fst details) m []) l2).
  rewrite <- flat_map_app. repeat split; apply R.
Qed.

Lemma no_credential_output_concatenates_witness :
  exists st0 o1 o2,
    @streamHandlerOn _ scripted ([sampleMagnet] ++ [sampleMagnet])
      "movie" "tt123" (withKey (KStr "") [detailsReply])
    = (Ok (o1 ++ o2)%list, st0)
    /\ @streamHandlerOn _ scripted [sampleMagnet] "movie" "tt123"
         (withKey (KStr "") [detailsReply]) = (Ok o1, st0)
    /\ @streamHandlerOn _ scripted [sampleMagnet] "movie" "tt123"
         (withKey (KStr "") [detailsReply]) = (Ok o2, st0).
Proof.
  apply (@no_credential_output_concatenates _ scripted
           [sampleMagnet] [sampleMagnet] "movie" "tt123"
           (withKey (KStr "") [detailsReply])).
  reflexivity.
Defined.
